(** * OrbitViz orbital analytics: conjunction search and pass prediction

    A shallow embedding of the frontend services
    [services/satelliteService.js], [services/collisionService.js] and the
    pass-prediction service ([calculatePasses] and its helpers), together
    with the properties the specification states about them.

    Numbers.  JavaScript numbers are modelled as exact rationals [Q], and
    a number that may be [Infinity] (the initial [minDistance], a
    [threshold] option) as [Num].  The code computes in IEEE doubles, so
    the statements below are about comparisons against fixed thresholds,
    about monotonicity and about which branch the code takes; where a
    statement names the value of a quotient or of a product, it carries the
    range in which the double the code computes is that value.  Distances
    are whatever [calculateDistance] returns: nothing below depends on how
    close that is to the geometric distance.

    Dates.  A [Date] is its time value in integer milliseconds ([Z]);
    [new Date] of a value outside the range of 8.64e15 ms either side of
    the epoch is an Invalid Date, whose time value is [NaN] and which
    compares false with everything.

    Externals.  The SGP4 library [satellite.js] and [Math.sqrt] are not
    part of the repository; they are interfaces ([SatelliteJs], [JsMath])
    that the services are parameterised over. *)

From stdpp Require Import gmap strings pretty list sorting.
From Stdlib Require Import QArith Qround Qabs Qminmax Lqa Lia Ascii.

Local Open Scope Z_scope.

(* ===================================================================== *)
(** * Part I: the embedding                                               *)
(* ===================================================================== *)

(** ** JavaScript primitives *)

(** [x < y] and [x <= y] on numbers, as booleans. *)
Definition Qltb (x y : Q) : bool := if Qlt_le_dec x y then true else false.
Definition Qleb (x y : Q) : bool := if Qlt_le_dec y x then false else true.

(** [Math.round]: the nearest integer, halves rounded up. *)
Definition Math_round (q : Q) : Z := Qfloor (q + (1 # 2)).

(** [new Date(x)] keeps the integral part of a number of milliseconds. *)
Definition toInteger (q : Q) : Z :=
  if Qlt_le_dec q 0 then Qceiling q else Qfloor q.

(** A number that is finite or [Infinity]. *)
Inductive Num := Finite (q : Q) | Infinity.

(** [x < y] and [x <= y] when a side may be [Infinity]. *)
Definition Num_ltb (x y : Num) : bool :=
  match x, y with
  | Finite a, Finite b => Qltb a b
  | Finite _, Infinity => true
  | Infinity, _ => false
  end.

Definition Num_leb (x y : Num) : bool :=
  match x, y with
  | Finite a, Finite b => Qleb a b
  | _, Infinity => true
  | Infinity, Finite _ => false
  end.

(** The order of [Num] as a proposition. *)
Definition Num_le (x y : Num) : Prop :=
  match x, y with
  | Finite a, Finite b => (a <= b)%Q
  | _, Infinity => True
  | Infinity, Finite _ => False
  end.

(** The largest time value a [Date] holds, in ms either side of the epoch. *)
Definition MAX_TIME : Z := 8640000000000000.

(** [new Date(value)]: the integral part of [value], or an Invalid Date
    ([None]) when [value] is outside the range. *)
Definition newDate (value : Q) : option Z :=
  if Qleb (Qabs value) (inject_Z MAX_TIME) then Some (toInteger value) else None.

(** [Number.MAX_SAFE_INTEGER]: up to here every integer is a double. *)
Definition MAX_SAFE_INTEGER : Z := 9007199254740991.

(** [a || 0] for a field that is a number or [undefined]. *)
Definition orZero (a : option Q) : Q := default 0%Q a.

(** [x % m] on numbers: the remainder has the sign of the dividend. *)
Definition jsRemainder (x m : Q) : Q := x - m * inject_Z (toInteger (x / m)).

(** Interface of [Math.sqrt]. *)
Class JsMath := { Math_sqrt : Q -> Q }.

(** ** The external SGP4 library (satellite.js) *)

Record Vec3 := mkVec3 { x : Q; y : Q; z : Q }.

(** [satellite.propagate] either throws or returns an object whose
    [position] is a vector or [false]. *)
Inductive Propagation :=
| PropThrows
| PropReturns (position : option Vec3).

Record GeodeticRad := { latitudeRad : Q; longitudeRad : Q; height : Q }.
Record LookAnglesRad := { azimuthRad : Q; elevationRad : Q; rangeSat : Q }.

Class SatelliteJs (Satrec : Type) := {
  propagate : Satrec -> Z -> Propagation;
  gstime : Z -> Q;
  eciToEcf : Vec3 -> Q -> Vec3;
  ecfToLookAngles : GeodeticRad -> Vec3 -> LookAnglesRad
}.

(** A tracked object as produced by [parseTLE]; only the fields the
    analytics read. *)
Record Satellite (Satrec : Type) := {
  name : string;
  noradId : Z;
  altitude : option Q;
  satrec : Satrec
}.
Arguments name {Satrec} _.
Arguments noradId {Satrec} _.
Arguments altitude {Satrec} _.
Arguments satrec {Satrec} _.

(** ** services/satelliteService.js *)

Module SatelliteService.
Section Defs.
Context {Satrec : Type} {sgp4 : SatelliteJs Satrec}.

Definition EARTH_RADIUS_KM : Q := 6371.
Definition SCALE_FACTOR : Q := 1 / 1000.

Definition eciToThreeJs (eciCoords : Vec3) : Vec3 :=
  {| x := x eciCoords * SCALE_FACTOR;
     y := z eciCoords * SCALE_FACTOR;
     z := - y eciCoords * SCALE_FACTOR |}.

(** [null] is [None]; an exception of the library is caught. *)
Definition getPositionAtTime (rec : Satrec) (date : Z) : option Vec3 :=
  match propagate rec date with
  | PropThrows => None
  | PropReturns None => None
  | PropReturns (Some position) => Some (eciToThreeJs position)
  end.
End Defs.
End SatelliteService.

(** ** services/collisionService.js *)

Module CollisionService.
Import SatelliteService.

(** Threshold distances for collision warnings, in km. *)
Module COLLISION_THRESHOLDS.
Definition CRITICAL : Q := 1.
Definition HIGH : Q := 5.
Definition MODERATE : Q := 10.
Definition LOW : Q := 25.
End COLLISION_THRESHOLDS.

Definition getRiskLevel (distance : Q) : string :=
  if Qltb distance COLLISION_THRESHOLDS.CRITICAL then "critical"
  else if Qltb distance COLLISION_THRESHOLDS.HIGH then "high"
  else if Qltb distance COLLISION_THRESHOLDS.MODERATE then "moderate"
  else if Qltb distance COLLISION_THRESHOLDS.LOW then "low"
  else "safe".

Definition calculateCollisionProbability (distance : Q) : Q :=
  if Qltb distance COLLISION_THRESHOLDS.CRITICAL then
    Qmin (99 # 100) (1 - (distance / COLLISION_THRESHOLDS.CRITICAL) * (5 # 10))
  else if Qltb distance COLLISION_THRESHOLDS.HIGH then
    (1 # 10) + (COLLISION_THRESHOLDS.HIGH - distance) / COLLISION_THRESHOLDS.HIGH * (4 # 10)
  else if Qltb distance COLLISION_THRESHOLDS.MODERATE then
    (1 # 100) + (COLLISION_THRESHOLDS.MODERATE - distance) / COLLISION_THRESHOLDS.MODERATE * (9 # 100)
  else if Qltb distance COLLISION_THRESHOLDS.LOW then
    (1 # 1000) + (COLLISION_THRESHOLDS.LOW - distance) / COLLISION_THRESHOLDS.LOW * (9 # 1000)
  else 1 # 10000.

(** [getRiskLevel(distance)] for a distance that may be [Infinity], which
    is below none of the thresholds. *)
Definition getRiskLevelOf (distance : Num) : string :=
  match distance with
  | Finite d => getRiskLevel d
  | Infinity => "safe"
  end.

(** The result objects of both searches.  [findCloseApproaches] pushes
    objects without a [probability], with [minDistance], which is
    [Infinity] when no sample gave a distance, and with the
    possibly-[null] [minDistanceTime]. *)
Record Conjunction (Satrec : Type) := {
  satellite1 : Satellite Satrec;
  satellite2 : Satellite Satrec;
  distance : Num;
  time : option Z;
  risk : string;
  probability : option Q
}.
Arguments satellite1 {Satrec} _.
Arguments satellite2 {Satrec} _.
Arguments distance {Satrec} _.
Arguments time {Satrec} _.
Arguments risk {Satrec} _.
Arguments probability {Satrec} _.

(** [Array.prototype.sort] with the comparator [a.distance - b.distance]:
    a stable sort by ascending distance.  The difference of two [Infinity]
    is [NaN], which [sort] takes for 0, so they keep their order. *)
Fixpoint insertByDistance {S} (c : Conjunction S) (l : list (Conjunction S))
  : list (Conjunction S) :=
  match l with
  | [] => [c]
  | c' :: l' =>
      if Num_leb (distance c) (distance c') then c :: c' :: l'
      else c' :: insertByDistance c l'
  end.

Definition sortByDistance {S} (l : list (Conjunction S)) : list (Conjunction S) :=
  foldr insertByDistance [] l.

(** A string without the separator of the pair keys. *)
Fixpoint dashFree (s : string) : Prop :=
  match s with
  | EmptyString => True
  | String c s' => c <> "-"%char /\ dashFree s'
  end.

(** The order of the results: [a] is at most as far as [b]. *)
Definition closer {S} : relation (Conjunction S) :=
  fun a b => Num_le (distance a) (distance b).

(** [Array.prototype.slice(0, n)]; a negative [n] counts from the end. *)
Definition slice0 {A} (n : Z) (l : list A) : list A :=
  if n <? 0 then take (Z.to_nat (Z.of_nat (length l) + n)) l
  else take (Z.to_nat n) l.

Definition getRiskColor (risk : string) : string :=
  if String.eqb risk "critical" then "#ef4444"
  else if String.eqb risk "high" then "#f59e0b"
  else if String.eqb risk "moderate" then "#eab308"
  else if String.eqb risk "low" then "#22c55e"
  else "#6b7280".

Section Defs.
Context {Satrec : Type} {math : JsMath} {sgp4 : SatelliteJs Satrec}.
Abbreviation Sat := (Satellite Satrec).
Abbreviation Conj := (Conjunction Satrec).

Definition calculateDistance (sat1 sat2 : Sat) (t : Z) : option Q :=
  match getPositionAtTime (satrec sat1) t, getPositionAtTime (satrec sat2) t with
  | Some pos1, Some pos2 =>
      let dx := ((x pos1 - x pos2) / SCALE_FACTOR)%Q in
      let dy := ((y pos1 - y pos2) / SCALE_FACTOR)%Q in
      let dz := ((z pos1 - z pos2) / SCALE_FACTOR)%Q in
      Some (Math_sqrt (dx * dx + dy * dy + dz * dz)%Q)
  | _, _ => None
  end.

(** *** findAllConjunctions *)

Definition pairKey (a b : Sat) : string :=
  pretty (noradId a) +:+ "-" +:+ pretty (noradId b).

(** Loop state: the [checked] set and the [conjunctions] array. *)
Definition ScanState : Type := gset string * list Conj.

(** Body of the inner loop for the pair [(si, sj)]. *)
Definition checkPair (t : Z) (threshold : Num) (si sj : Sat) (st : ScanState)
  : ScanState :=
  let '(checked, conjunctions) := st in
  if decide (pairKey si sj ∈ checked) then st
  else
    let checked := checked ∪ {[ pairKey si sj ]} in
    let altDiff := Qabs (orZero (altitude si) - orZero (altitude sj)) in
    if Qltb 50 altDiff then (checked, conjunctions)
    else
      match calculateDistance si sj t with
      | Some d =>
          if Num_leb (Finite d) threshold then
            (checked,
             conjunctions ++
               [{| satellite1 := si; satellite2 := sj; distance := Finite d;
                   time := Some t; risk := getRiskLevel d;
                   probability := Some (calculateCollisionProbability d) |}])
          else (checked, conjunctions)
      | None => (checked, conjunctions)
      end.

(** [for (i ...) for (j = i + 1 ...)]: every element against the ones
    after it, in index order. *)
Fixpoint scanPairs (t : Z) (threshold : Num) (satellites : list Sat)
    (st : ScanState) : ScanState :=
  match satellites with
  | [] => st
  | si :: rest =>
      scanPairs t threshold rest
        (fold_left (fun st sj => checkPair t threshold si sj st) rest st)
  end.

Definition findAllConjunctions (satellites : list Sat)
    (t : Z) (threshold : Num) (maxResults : Z) : list Conj :=
  let '(_, conjunctions) := scanPairs t threshold satellites (∅, []) in
  slice0 maxResults (sortByDistance conjunctions).

(** The call with [options = {}] apart from the clock reading [t]. *)
Definition findAllConjunctions_default (satellites : list Sat) (t : Z) : list Conj :=
  findAllConjunctions satellites t (Finite COLLISION_THRESHOLDS.LOW) 50.

(** *** findCloseApproaches *)

(** The sampled instants [start, start + step, ...] up to [stop]
    inclusive; [n] bounds the number of iterations. *)
Fixpoint sampleTimes (n : nat) (t stop step : Z) : list Z :=
  match n with
  | O => []
  | S n' => if t <=? stop then t :: sampleTimes n' (t + step) stop step else []
  end.

(** Loop state of the scan of one candidate: [minDistance] and
    [minDistanceTime] ([None] is [null]). *)
Definition scanSample (target candidate : Sat) (acc : Num * option Z)
    (t : Z) : Num * option Z :=
  match calculateDistance target candidate t with
  | Some d => if Num_ltb (Finite d) (fst acc) then (Finite d, Some t) else acc
  | None => acc
  end.

Definition scanCandidate (target candidate : Sat) (times : list Z)
  : Num * option Z :=
  fold_left (scanSample target candidate) times (Infinity, None).

Definition isCandidate (target sat : Sat) : bool :=
  negb (bool_decide (noradId sat = noradId target)) &&
  Qltb (Qabs (orZero (altitude sat) - orZero (altitude target))) 100.

Definition checkCandidate (target : Sat) (times : list Z) (threshold : Num)
    (approaches : list Conj) (candidate : Sat) : list Conj :=
  let '(minDistance, minDistanceTime) := scanCandidate target candidate times in
  if Num_leb minDistance threshold then
    approaches ++
      [{| satellite1 := target; satellite2 := candidate;
          distance := minDistance; time := minDistanceTime;
          risk := getRiskLevelOf minDistance; probability := None |}]
  else approaches.

Definition stepMinutes : Z := 5.

(** The [times] array: [startTime], then every five minutes while
    [t <= endTime]; empty when either date is invalid, since the loop test
    is then false at once. *)
Definition approachTimes (startTime : Z) (hoursAhead : Q) : list Z :=
  match newDate (inject_Z startTime),
        newDate (inject_Z startTime + hoursAhead * 60 * 60 * 1000) with
  | Some t0, Some endTime =>
      let step := stepMinutes * 60 * 1000 in
      sampleTimes (Z.to_nat ((endTime - t0) / step + 1)) t0 endTime step
  | _, _ => []
  end.

Definition findCloseApproaches (targetSat : Sat) (allSatellites : list Sat)
    (startTime : Z) (hoursAhead : Q) (threshold : Num) (maxResults : Z)
  : list Conj :=
  let candidates := filter (fun s => isCandidate targetSat s = true) allSatellites in
  let times := approachTimes startTime hoursAhead in
  let approaches :=
    fold_left (checkCandidate targetSat times threshold) candidates [] in
  slice0 maxResults (sortByDistance approaches).

(** *** Vocabulary of the statements *)

(** The pairs the two nested loops visit, in the order they visit them. *)
Fixpoint pairsVisited (satellites : list Sat) : list (Sat * Sat) :=
  match satellites with
  | [] => []
  | si :: rest => (pair si <$> rest) ++ pairsVisited rest
  end.

(** A pair of identifiers up to order. *)
Definition unordered (p : Z * Z) : Z * Z := (Z.min p.1 p.2, Z.max p.1 p.2).

Definition satIds (p : Sat * Sat) : Z * Z := (noradId p.1, noradId p.2).

Definition objectIds (c : Conj) : Z * Z :=
  (noradId (satellite1 c), noradId (satellite2 c)).

(** [c] is an object [findAllConjunctions] builds at time [t]. *)
Definition Reported (t : Z) (threshold : Num) (c : Conj) : Prop :=
  exists d : Q,
    distance c = Finite d /\
    calculateDistance (satellite1 c) (satellite2 c) t = Some d /\
    Num_le (Finite d) threshold /\
    time c = Some t /\
    risk c = getRiskLevel d /\
    probability c = Some (calculateCollisionProbability d).

(** Some sample of the scan of [candidate] gave a distance. *)
Definition hasSample (target : Sat) (times : list Z) (candidate : Sat) : bool :=
  existsb (fun t => bool_decide (is_Some (calculateDistance target candidate t))) times.

(** The altitude difference both pre-filters look at. *)
Definition altitudeGap (a b : Sat) : Q :=
  Qabs (orZero (altitude a) - orZero (altitude b)).

(** [d] at [t] is the smallest distance the scan of [candidate] over
    [times] measures, and [t] the first instant that measures it. *)
Definition FirstMinimum (target candidate : Sat) (times : list Z)
    (d : Q) (t : Z) : Prop :=
  exists earlier later,
    times = earlier ++ t :: later /\
    calculateDistance target candidate t = Some d /\
    (forall t' d', t' ∈ earlier ->
       calculateDistance target candidate t' = Some d' -> (d < d')%Q) /\
    (forall t' d', t' ∈ later ->
       calculateDistance target candidate t' = Some d' -> (d <= d')%Q).

(** No sample of the scan of [candidate] gave a distance. *)
Definition Unmeasured (target candidate : Sat) (times : list Z) : Prop :=
  forall t, t ∈ times -> calculateDistance target candidate t = None.

(** What [checkCandidate] appends for [candidate], if anything: the first
    minimum of the measured distances, or, under the threshold [Infinity]
    only, a pair that was never measured. *)
Definition ApproachOf (target : Sat) (times : list Z) (threshold : Num)
    (candidate : Sat)
    (c : Conj) : Prop :=
  satellite1 c = target /\ satellite2 c = candidate /\
  Num_le (distance c) threshold /\
  risk c = getRiskLevelOf (distance c) /\ probability c = None /\
  ((exists d t, distance c = Finite d /\ time c = Some t /\
                FirstMinimum target candidate times d t) \/
   (distance c = Infinity /\ time c = None /\ threshold = Infinity /\
    Unmeasured target candidate times)).
End Defs.
End CollisionService.

(** ** components/UI: the conjunction panel ([CollisionAlerts]) *)

Module CollisionAlerts.
Import CollisionService.

Record Stats := {
  critical : nat; high : nat; moderate : nat; low : nat; total : nat
}.

Section Defs.
Context {Satrec : Type} {math : JsMath} {sgp4 : SatelliteJs Satrec}.

(** [s.altitude && s.altitude < 2000]: a defined, non-zero altitude
    below 2000 km. *)
Definition isLeo (s : Satellite Satrec) : bool :=
  match altitude s with
  | Some a => negb (Qeq_bool a 0) && Qltb a 2000
  | None => false
  end.

Definition sampledSatellites (filteredSatellites : list (Satellite Satrec))
  : list (Satellite Satrec) :=
  let sampleSize := Z.min 500 (Z.of_nat (length filteredSatellites)) in
  slice0 sampleSize (filter (fun s => isLeo s = true) filteredSatellites).

(** The [results] of [calculateConjunctions]; the notifications it then
    sends do not change them. *)
Definition calculateConjunctions (viewMode : string)
    (selectedSatellite : option (Satellite Satrec))
    (filteredSatellites : list (Satellite Satrec)) (simulationTime : Z)
  : list (Conjunction Satrec) :=
  match String.eqb viewMode "selected", selectedSatellite with
  | true, Some selected =>
      findCloseApproaches selected filteredSatellites simulationTime 24
        (Finite 25) 20
  | _, _ =>
      findAllConjunctions (sampledSatellites filteredSatellites) simulationTime
        (Finite 25) 20
  end.

(** [conjunctions.filter(c => c.risk === r).length] *)
Definition countRisk (r : string) (conjunctions : list (Conjunction Satrec)) : nat :=
  length (filter (fun c => risk c = r) conjunctions).

Definition stats (conjunctions : list (Conjunction Satrec)) : Stats :=
  {| critical := countRisk "critical" conjunctions;
     high := countRisk "high" conjunctions;
     moderate := countRisk "moderate" conjunctions;
     low := countRisk "low" conjunctions;
     total := length conjunctions |}.
End Defs.
End CollisionAlerts.

(** ** The pass-prediction service *)

Module PassService.

Definition MIN_ELEVATION : Q := 10.
Definition PREDICTION_WINDOW : Z := 24 * 60 * 60 * 1000.
Definition TIME_STEP : Z := 60 * 1000.

(** [Math.PI], the double nearest to pi, as the rational it is. *)
Definition Math_PI : Q := 884279719003555 # 281474976710656.

Record Observer := { latitude : Q; longitude : Q; altitude : option Q }.

Record LookAngle := { azimuth : Q; elevation : Q; range : Q }.

Module Point.
Record t := { time : Z; azimuth : Q; elevation : Q; range : Q }.
End Point.

Definition directions : list string :=
  ["N"; "NNE"; "NE"; "ENE"; "E"; "ESE"; "SE"; "SSE";
   "S"; "SSW"; "SW"; "WSW"; "W"; "WNW"; "NW"; "NNW"].

(** [Math.round(azimuth / 22.5) % 16]; [%] takes the sign of the dividend. *)
Definition directionIndex (azimuth : Q) : Z :=
  Z.rem (Math_round (azimuth / (45 # 2))) 16.

(** [directions[index]]; [None] is [undefined]. *)
Definition getCardinalDirection (azimuth : Q) : option string :=
  let index := directionIndex azimuth in
  if index <? 0 then None else directions !! Z.to_nat index.

Definition getPassQuality (maxElevation : Q) : string :=
  if Qleb 70 maxElevation then "excellent"
  else if Qleb 45 maxElevation then "good"
  else if Qleb 25 maxElevation then "fair"
  else "poor".

(** The pass object.  The four [end...] fields and [duration] do not exist
    on the object until the pass is closed: [None] is [undefined]. *)
Record Pass (Satrec : Type) := {
  satellite : Satellite Satrec;
  startTime : Z;
  startAzimuth : Q;
  startDirection : option string;
  maxElevation : Q;
  maxElevationTime : Z;
  maxAzimuth : Q;
  points : list Point.t;
  endTime : option Z;
  endAzimuth : option Q;
  endDirection : option string;
  duration : option Q
}.
Arguments satellite {Satrec} _.
Arguments startTime {Satrec} _.
Arguments startAzimuth {Satrec} _.
Arguments startDirection {Satrec} _.
Arguments maxElevation {Satrec} _.
Arguments maxElevationTime {Satrec} _.
Arguments maxAzimuth {Satrec} _.
Arguments points {Satrec} _.
Arguments endTime {Satrec} _.
Arguments endAzimuth {Satrec} _.
Arguments endDirection {Satrec} _.
Arguments duration {Satrec} _.

(** The variables of the [while] loop of [calculatePasses]. *)
Record LoopState (Satrec : Type) := {
  passes : list (Pass Satrec);
  inPass : bool;
  currentPass : option (Pass Satrec)
}.
Arguments passes {Satrec} _.
Arguments inPass {Satrec} _.
Arguments currentPass {Satrec} _.

(** [(endTime - startTime) / 1000], in seconds. *)
Definition secondsBetween (t0 t1 : Z) : Q := inject_Z (t1 - t0) / 1000.

(** The object [isCurrentlyVisible] returns. *)
Module Visible.
Record t := {
  azimuth : Q; elevation : Q; range : Q; direction : option string
}.
End Visible.

Definition formatDuration (seconds : Q) : string :=
  let mins := Qfloor (seconds / 60) in
  let secs := Qfloor (jsRemainder seconds 60) in
  if 0 <? mins then pretty mins +:+ "m " +:+ pretty secs +:+ "s"
  else pretty secs +:+ "s".

Section Defs.
Context {Satrec : Type} {sgp4 : SatelliteJs Satrec}.

Definition getLookAngle (observerGd : Observer) (satelliteEci : Vec3) (date : Z)
  : LookAngle :=
  let observerGdRad :=
    {| latitudeRad := latitude observerGd * Math_PI / 180;
       longitudeRad := longitude observerGd * Math_PI / 180;
       height := orZero (altitude observerGd) |} in
  let lookAngles := ecfToLookAngles observerGdRad satelliteEci in
  {| azimuth := azimuthRad lookAngles * 180 / Math_PI;
     elevation := elevationRad lookAngles * 180 / Math_PI;
     range := rangeSat lookAngles |}.

(** The object literal built at the start of a new pass. *)
Definition openPass (sat : Satellite Satrec) (t : Z) (lookAngles : LookAngle)
  : Pass Satrec :=
  {| satellite := sat;
     startTime := t;
     startAzimuth := azimuth lookAngles;
     startDirection := getCardinalDirection (azimuth lookAngles);
     maxElevation := elevation lookAngles;
     maxElevationTime := t;
     maxAzimuth := azimuth lookAngles;
     points := [];
     endTime := None; endAzimuth := None; endDirection := None;
     duration := None |}.

(** "Track max elevation". *)
Definition trackMax (p : Pass Satrec) (t : Z) (lookAngles : LookAngle) : Pass Satrec :=
  if Qltb (maxElevation p) (elevation lookAngles) then
    {| satellite := satellite p; startTime := startTime p;
       startAzimuth := startAzimuth p; startDirection := startDirection p;
       maxElevation := elevation lookAngles;
       maxElevationTime := t;
       maxAzimuth := azimuth lookAngles;
       points := points p;
       endTime := endTime p; endAzimuth := endAzimuth p;
       endDirection := endDirection p; duration := duration p |}
  else p.

(** "Store pass point". *)
Definition pushPoint (p : Pass Satrec) (t : Z) (lookAngles : LookAngle) : Pass Satrec :=
  {| satellite := satellite p; startTime := startTime p;
     startAzimuth := startAzimuth p; startDirection := startDirection p;
     maxElevation := maxElevation p; maxElevationTime := maxElevationTime p;
     maxAzimuth := maxAzimuth p;
     points := points p ++
       [{| Point.time := t; Point.azimuth := azimuth lookAngles;
           Point.elevation := elevation lookAngles;
           Point.range := range lookAngles |}];
     endTime := endTime p; endAzimuth := endAzimuth p;
     endDirection := endDirection p; duration := duration p |}.

(** "End of pass": the four assignments of the [else if (inPass)] branch. *)
Definition closePass (p : Pass Satrec) (t : Z) (lookAngles : LookAngle) : Pass Satrec :=
  {| satellite := satellite p; startTime := startTime p;
     startAzimuth := startAzimuth p; startDirection := startDirection p;
     maxElevation := maxElevation p; maxElevationTime := maxElevationTime p;
     maxAzimuth := maxAzimuth p; points := points p;
     endTime := Some t;
     endAzimuth := Some (azimuth lookAngles);
     endDirection := getCardinalDirection (azimuth lookAngles);
     duration := Some (secondsBetween (startTime p) t) |}.

(** "Handle pass that extends beyond prediction window": the two
    assignments made after the loop. *)
Definition closeAtHorizon (p : Pass Satrec) (t : Z) : Pass Satrec :=
  {| satellite := satellite p; startTime := startTime p;
     startAzimuth := startAzimuth p; startDirection := startDirection p;
     maxElevation := maxElevation p; maxElevationTime := maxElevationTime p;
     maxAzimuth := maxAzimuth p; points := points p;
     endTime := Some t;
     endAzimuth := endAzimuth p;
     endDirection := endDirection p;
     duration := Some (secondsBetween (startTime p) t) |}.

(** The branches of the loop body once the look angles are known.  A
    property access on a [null] [currentPass] throws; the [catch] block
    swallows it before anything was assigned. *)
Definition observe (sat : Satellite Satrec) (t : Z) (lookAngles : LookAngle)
    (st : LoopState Satrec) : LoopState Satrec :=
  if Qleb MIN_ELEVATION (elevation lookAngles) then
    let st1 :=
      if inPass st then st
      else {| passes := passes st; inPass := true;
              currentPass := Some (openPass sat t lookAngles) |} in
    match currentPass st1 with
    | None => st
    | Some p =>
        {| passes := passes st1; inPass := inPass st1;
           currentPass := Some (pushPoint (trackMax p t lookAngles) t lookAngles) |}
    end
  else if inPass st then
    match currentPass st with
    | None => st
    | Some p =>
        let p' := closePass p t lookAngles in
        {| passes :=
             if Qleb 60 (secondsBetween (startTime p) t)
                && Qleb MIN_ELEVATION (maxElevation p')
             then passes st ++ [p'] else passes st;
           inPass := false;
           currentPass := None |}
    end
  else st.

(** The [try] block of one iteration at [time].  A throwing or empty
    propagation leaves every variable but [time] as it was. *)
Definition visit (sat : Satellite Satrec) (observerGd : Observer) (t : Z)
    (st : LoopState Satrec) : LoopState Satrec :=
  match propagate (satrec sat) t with
  | PropThrows => st
  | PropReturns None => st
  | PropReturns (Some position) =>
      let gmst := gstime t in
      let positionEcf := eciToEcf position gmst in
      let lookAngles := getLookAngle observerGd positionEcf t in
      observe sat t lookAngles st
  end.

(** [while (time < endTime) { ...; time = new Date(time.getTime() +
    TIME_STEP) }], at most [fuel] iterations; returns the final [time] and
    loop variables.  When the new [time] is an Invalid Date the test
    [time < endTime] is false and the loop ends. *)
Fixpoint loop (fuel : nat) (sat : Satellite Satrec) (observerGd : Observer)
    (stop : Z) (t : Z) (st : LoopState Satrec) : option Z * LoopState Satrec :=
  match fuel with
  | O => (Some t, st)
  | S fuel' =>
      if t <? stop then
        let st' := visit sat observerGd t st in
        match newDate (inject_Z (t + TIME_STEP)) with
        | Some t' => loop fuel' sat observerGd stop t' st'
        | None => (None, st')
        end
      else (Some t, st)
  end.

(** The number of iterations the loop makes over a window of [d] ms. *)
Definition iterations (d : Z) : nat := Z.to_nat ((d + TIME_STEP - 1) / TIME_STEP).

Definition initialState : LoopState Satrec :=
  {| passes := []; inPass := false; currentPass := None |}.

(** The code after the loop.  With an Invalid Date for [time] the
    duration is [NaN] and [NaN >= 60] is false. *)
Definition finish (time : option Z) (st : LoopState Satrec) : list (Pass Satrec) :=
  match inPass st, currentPass st with
  | true, Some p =>
      match time with
      | Some t =>
          if Qleb 60 (secondsBetween (startTime p) t)
          then passes st ++ [closeAtHorizon p t] else passes st
      | None => passes st
      end
  | _, _ => passes st
  end.

(** [start] is the time value of [startTime] and [d] the [duration], a
    whole number of ms.  When [startTime] or [endTime] is an Invalid Date
    the loop test is false at once and nothing is returned. *)
Definition calculatePasses (sat : Satellite Satrec) (observerGd : Observer)
    (start : Z) (d : Z) : list (Pass Satrec) :=
  match newDate (inject_Z start), newDate (inject_Z (start + d)) with
  | Some time, Some stop =>
      let '(t, st) := loop (iterations d) sat observerGd stop time initialState in
      finish t st
  | _, _ => []
  end.

(** What one iteration at [t] gets to see of the satellite: its look
    angles, or nothing when propagation threw or gave no position. *)
Definition lookAt (sat : Satellite Satrec) (observerGd : Observer) (t : Z)
  : option LookAngle :=
  match propagate (satrec sat) t with
  | PropReturns (Some position) =>
      Some (getLookAngle observerGd (eciToEcf position (gstime t)) t)
  | _ => None
  end.

(** [new Date()] is the argument [now]. *)
Definition getNextPass (sat : Satellite Satrec) (observerGd : Observer) (now : Z)
  : option (Pass Satrec) :=
  head (calculatePasses sat observerGd now PREDICTION_WINDOW).

(** [allPasses.sort((a, b) => a.startTime - b.startTime)]: a stable sort
    by ascending start time. *)
Fixpoint insertByStartTime (p : Pass Satrec) (l : list (Pass Satrec))
  : list (Pass Satrec) :=
  match l with
  | [] => [p]
  | q :: l' =>
      if startTime p <=? startTime q then p :: q :: l'
      else q :: insertByStartTime p l'
  end.

Definition sortByStartTime (l : list (Pass Satrec)) : list (Pass Satrec) :=
  foldr insertByStartTime [] l.

(** The clock is read once per satellite: [clock i] is the reading of
    [new Date()] in iteration [i]. *)
Definition getUpcomingPasses (satellites : list (Satellite Satrec))
    (observerGd : Observer) (clock : nat -> Z) (limit : Z) : list (Pass Satrec) :=
  let allPasses :=
    mjoin (imap (fun i sat =>
                   calculatePasses sat observerGd (clock i) PREDICTION_WINDOW)
                satellites) in
  CollisionService.slice0 limit (sortByStartTime allPasses).

Definition isCurrentlyVisible (sat : Satellite Satrec) (observerGd : Observer)
    (now : Z) : option Visible.t :=
  match propagate (satrec sat) now with
  | PropThrows => None
  | PropReturns None => None
  | PropReturns (Some position) =>
      let gmst := gstime now in
      let positionEcf := eciToEcf position gmst in
      let lookAngles := getLookAngle observerGd positionEcf now in
      if Qleb MIN_ELEVATION (elevation lookAngles) then
        Some {| Visible.azimuth := azimuth lookAngles;
                Visible.elevation := elevation lookAngles;
                Visible.range := range lookAngles;
                Visible.direction := getCardinalDirection (azimuth lookAngles) |}
      else None
  end.

(** *** Vocabulary of the statements *)

(** The loop over instants that are not bounded by the range of [Date];
    [loop] agrees with it as long as its instants are valid dates. *)
Fixpoint sweep (fuel : nat) (sat : Satellite Satrec) (observerGd : Observer)
    (stop : Z) (t : Z) (st : LoopState Satrec) : Z * LoopState Satrec :=
  match fuel with
  | O => (t, st)
  | S fuel' =>
      if t <? stop then
        sweep fuel' sat observerGd stop (t + TIME_STEP) (visit sat observerGd t st)
      else (t, st)
  end.

(** The search window [[start, start + d]] and the instant one step after
    it are valid dates. *)
Definition InRange (start d : Z) : Prop :=
  - MAX_TIME <= start <= MAX_TIME /\
  - MAX_TIME <= start + d /\ start + d + TIME_STEP <= MAX_TIME.

(** The culmination fields of [p] are those of the first of its samples
    that has the greatest elevation. *)
Definition Culminates (p : Pass Satrec) : Prop :=
  exists earlier pt later,
    points p = earlier ++ pt :: later /\
    Point.time pt = maxElevationTime p /\
    Point.elevation pt = maxElevation p /\
    Point.azimuth pt = maxAzimuth p /\
    Forall (fun q => (Point.elevation q < maxElevation p)%Q) earlier /\
    Forall (fun q => (Point.elevation q <= maxElevation p)%Q) later.

(** Third invariant of the loop. *)
Definition CulminationInv (st : LoopState Satrec) : Prop :=
  Forall Culminates (passes st) /\
  (inPass st = true -> exists p, currentPass st = Some p /\ Culminates p).

(** The samples and the running maximum of a pass all of whose samples
    were taken before [bound]. *)
Definition Tracked (bound : Z) (p : Pass Satrec) : Prop :=
  Forall (fun pt =>
            (MIN_ELEVATION <= Point.elevation pt)%Q /\
            (Point.elevation pt <= maxElevation p)%Q /\
            startTime p <= Point.time pt < bound) (points p) /\
  Exists (fun pt =>
            Point.elevation pt = maxElevation p /\
            Point.time pt = maxElevationTime p) (points p) /\
  startTime p <= maxElevationTime p < bound.

(** A pass as it is when pushed onto [passes]. *)
Definition Closed (p : Pass Satrec) : Prop :=
  exists e : Z,
    endTime p = Some e /\ Tracked e p /\
    duration p = Some (secondsBetween (startTime p) e) /\
    (60 <= secondsBetween (startTime p) e)%Q.

(** Invariant of the loop when [time] is [t]. *)
Definition LoopInv (t : Z) (st : LoopState Satrec) : Prop :=
  Forall Closed (passes st) /\
  (inPass st = true ->
   exists p, currentPass st = Some p /\ Tracked t p /\ endAzimuth p = None).

(** Propagation succeeds at every instant and the satellite is at or
    above the minimum elevation exactly during [[a, b)]. *)
Definition VisibleExactly (sat : Satellite Satrec) (observerGd : Observer)
    (a b : Z) : Prop :=
  forall t : Z, exists la,
    lookAt sat observerGd t = Some la /\
    ((MIN_ELEVATION <= elevation la)%Q <-> a <= t < b).

(** [t] is one of the instants the loop over [[start, start + d)] samples. *)
Definition Sampled (start d t : Z) : Prop :=
  exists k : Z, 0 <= k /\ t = start + k * TIME_STEP /\ t < start + d.

(** The order of the merged schedule: [p] starts no later than [q]. *)
Definition startsFirst : relation (Pass Satrec) :=
  fun p q => startTime p <= startTime q.

(** [t] is [start] plus a whole number of time steps. *)
Definition OnGrid (start t : Z) : Prop :=
  exists k : Z, 0 <= k /\ t = start + k * TIME_STEP.

(** The stored point [pt] is what the satellite's look angles were at
    its time. *)
Definition SampleOf (sat : Satellite Satrec) (observerGd : Observer)
    (pt : Point.t) : Prop :=
  lookAt sat observerGd (Point.time pt) =
    Some {| azimuth := Point.azimuth pt; elevation := Point.elevation pt;
            range := Point.range pt |}.

(** Where the start fields and the samples of a pass of [sat] come from,
    for a pass all of whose samples were taken before [bound]. *)
Definition Gathered (sat : Satellite Satrec) (observerGd : Observer)
    (start stop bound : Z) (p : Pass Satrec) : Prop :=
  satellite p = sat /\
  startDirection p = getCardinalDirection (startAzimuth p) /\
  (exists first rest,
     points p = first :: rest /\ Point.time first = startTime p /\
     Point.azimuth first = startAzimuth p) /\
  StronglySorted Z.lt (Point.time <$> points p) /\
  Forall (fun pt =>
            OnGrid start (Point.time pt) /\ Point.time pt < stop /\
            Point.time pt < bound /\
            SampleOf sat observerGd pt /\
            (MIN_ELEVATION <= Point.elevation pt)%Q) (points p).

(** A pass as returned: closed at a grid instant after its start. *)
Definition Finished (sat : Satellite Satrec) (observerGd : Observer)
    (start stop : Z) (p : Pass Satrec) : Prop :=
  exists e : Z,
    endTime p = Some e /\ OnGrid start e /\
    Gathered sat observerGd start stop e p /\
    duration p = Some (secondsBetween (startTime p) e).

(** [p] is over before [q] begins. *)
Definition Before (p q : Pass Satrec) : Prop :=
  exists e : Z, endTime p = Some e /\ e < startTime q.

(** Second invariant of the loop when [time] is [t]. *)
Definition ScheduleInv (sat : Satellite Satrec) (observerGd : Observer)
    (start stop t : Z) (st : LoopState Satrec) : Prop :=
  OnGrid start t /\
  Forall (Finished sat observerGd start stop) (passes st) /\
  StronglySorted Before (passes st) /\
  Forall (fun p => exists e, endTime p = Some e /\ e < t) (passes st) /\
  (inPass st = true ->
   exists p, currentPass st = Some p /\
             Gathered sat observerGd start stop t p /\
             Forall (fun q => Before q p) (passes st)).
End Defs.

(** The fields of a pass that the worked instances look at; the azimuth
    in lowest terms. *)
Definition summary {S : Type} (p : Pass S)
  : Z * Z * option Z * option Q * option string * option string :=
  (startTime p, maxElevationTime p, endTime p, Qred <$> endAzimuth p,
   startDirection p, endDirection p).
End PassService.

(** ** Synthetic collaborators used by the worked examples *)

Module Fixtures.
(** A table-driven propagator: the orbital record is the table of what
    [propagate] answers at each instant. *)
Definition Orbit : Type := Z -> Propagation.

(** Frames are the identity; the look angles (in degrees) are read off the
    coordinates of the vector: azimuth, elevation, range. *)
Definition tableJs : SatelliteJs Orbit :=
  {| propagate := fun rec t => rec t;
     gstime := fun _ => 0%Q;
     eciToEcf := fun v _ => v;
     ecfToLookAngles := fun _ v =>
       {| azimuthRad := x v * PassService.Math_PI / 180;
          elevationRad := y v * PassService.Math_PI / 180;
          rangeSat := z v |} |}.

(** A square root that is exact on squares of rationals. *)
Definition exactSqrt : JsMath :=
  {| Math_sqrt := fun q => Z.sqrt (Qnum q * Zpos (Qden q)) # Qden q |}.

(** A square root that depends on the value of its argument only; exact
    on squares of rationals. *)
Definition reducedSqrt : JsMath :=
  {| Math_sqrt := fun q =>
       let r := Qred q in Z.sqrt (Qnum r * Zpos (Qden r)) # Qden r |}.

Definition at_ (vx vy vz : Q) : Propagation := PropReturns (Some (mkVec3 vx vy vz)).

Definition mkSat (id : Z) (alt : Q) (o : Orbit) : Satellite Orbit :=
  {| name := "SAT-" +:+ pretty id; noradId := id; altitude := Some alt; satrec := o |}.

Definition site : PassService.Observer :=
  {| PassService.latitude := 0; PassService.longitude := 0;
     PassService.altitude := None |}.

(** Two objects exactly 25 km apart at every instant. *)
Definition satA : Satellite Orbit := mkSat 101 400 (fun _ => at_ 6771 0 0).
Definition satB : Satellite Orbit := mkSat 102 400 (fun _ => at_ 6771 25 0).

(** Elevation 20 degrees during [[a, a + len)] and 0 outside. *)
Definition windowOrbit (a len : Z) : Orbit :=
  fun t => if (a <=? t) && (t <? a + len) then at_ 180 20 1000 else at_ 180 0 2000.

(** Elevations given sample by sample, one per minute from 0; below the
    horizon after the table ends. *)
Definition sampledOrbit (els : list Q) : Orbit :=
  fun t => at_ (inject_Z (t / PassService.TIME_STEP)) (default 0%Q (els !! Z.to_nat (t / PassService.TIME_STEP))) 1000.

(** A propagator that fails before [from] and then sits 3 km from [satA]. *)
Definition lateOrbit (from : Z) : Orbit :=
  fun t => if t <? from then PropReturns None else at_ 6771 3 0.
End Fixtures.

(* ===================================================================== *)
(** * Part II: properties                                                 *)
(* ===================================================================== *)

(** ** Comparisons *)

Lemma Qltb_true (a b : Q) : Qltb a b = true <-> (a < b)%Q.
Proof. unfold Qltb; destruct (Qlt_le_dec a b); split; intros; try easy; lra. Qed.

Lemma Qltb_false (a b : Q) : Qltb a b = false <-> (b <= a)%Q.
Proof. unfold Qltb; destruct (Qlt_le_dec a b); split; intros; try easy; lra. Qed.

Lemma Qleb_true (a b : Q) : Qleb a b = true <-> (a <= b)%Q.
Proof. unfold Qleb; destruct (Qlt_le_dec b a); split; intros; try easy; lra. Qed.

Lemma Qleb_false (a b : Q) : Qleb a b = false <-> (b < a)%Q.
Proof. unfold Qleb; destruct (Qlt_le_dec b a); split; intros; try easy; lra. Qed.

Ltac qcases :=
  repeat match goal with
  | |- context [Qltb ?a ?b] =>
      let E := fresh "E" in
      destruct (Qltb a b) eqn:E;
      [apply Qltb_true in E | apply Qltb_false in E]
  | |- context [Qleb ?a ?b] =>
      let E := fresh "E" in
      destruct (Qleb a b) eqn:E;
      [apply Qleb_true in E | apply Qleb_false in E]
  end.

Lemma Num_leb_true (a b : Num) : Num_leb a b = true <-> Num_le a b.
Proof. destruct a, b; simpl; try apply Qleb_true; by split. Qed.

Lemma Num_leb_false (a b : Num) : Num_leb a b = false -> Num_le b a.
Proof.
  destruct a, b; simpl; try done. intros H%Qleb_false. lra.
Qed.

Lemma Num_le_trans (a b c : Num) : Num_le a b -> Num_le b c -> Num_le a c.
Proof. destruct a, b, c; simpl; try done. intros; lra. Qed.

Lemma Num_ltb_true (d : Q) (m : Num) :
  Num_ltb (Finite d) m = true <->
  match m with Finite q => (d < q)%Q | Infinity => True end.
Proof. destruct m; simpl; [apply Qltb_true|by split]. Qed.

(** ** Dates *)

Lemma toInteger_Z (v : Z) : toInteger (inject_Z v) = v.
Proof.
  unfold toInteger. destruct (Qlt_le_dec _ _); [apply Qceiling_Z|apply Qfloor_Z].
Qed.

Lemma newDate_valid (v : Z) :
  - MAX_TIME <= v <= MAX_TIME -> newDate (inject_Z v) = Some v.
Proof.
  intros H. unfold newDate.
  change (Qabs (inject_Z v)) with (inject_Z (Z.abs v)).
  rewrite (proj2 (Qleb_true _ _)), toInteger_Z; [reflexivity|].
  rewrite <- Zle_Qle. lia.
Qed.

Lemma newDate_invalid (v : Z) :
  v < - MAX_TIME \/ MAX_TIME < v -> newDate (inject_Z v) = None.
Proof.
  intros H. unfold newDate.
  change (Qabs (inject_Z v)) with (inject_Z (Z.abs v)).
  rewrite (proj2 (Qleb_false _ _)); [reflexivity|].
  rewrite <- Zlt_Qlt. lia.
Qed.

Lemma newDate_cases (v : Z) :
  (- MAX_TIME <= v <= MAX_TIME /\ newDate (inject_Z v) = Some v) \/
  ((v < - MAX_TIME \/ MAX_TIME < v) /\ newDate (inject_Z v) = None).
Proof.
  destruct (decide (- MAX_TIME <= v <= MAX_TIME)) as [H|H].
  - left. split; [exact H|by apply newDate_valid].
  - right. assert (v < - MAX_TIME \/ MAX_TIME < v) by lia.
    split; [assumption|by apply newDate_invalid].
Qed.

(** Division by the constants of the code, for [lra]. *)
Ltac qdiv :=
  unfold Qdiv in *;
  change (/ 1)%Q with 1%Q in *;
  change (/ 5)%Q with (1 # 5)%Q in *;
  change (/ 10)%Q with (1 # 10)%Q in *;
  change (/ 25)%Q with (1 # 25)%Q in *;
  change (/ 1000)%Q with (1 # 1000)%Q in *.

(** ** Risk bands *)

Section RiskBands.
Import CollisionService.

Lemma getRiskLevel_cases (d : Q) :
  (d < 1 /\ getRiskLevel d = "critical")%Q \/
  (1 <= d < 5 /\ getRiskLevel d = "high")%Q \/
  (5 <= d < 10 /\ getRiskLevel d = "moderate")%Q \/
  (10 <= d < 25 /\ getRiskLevel d = "low")%Q \/
  (25 <= d /\ getRiskLevel d = "safe")%Q.
Proof.
  unfold getRiskLevel, COLLISION_THRESHOLDS.CRITICAL, COLLISION_THRESHOLDS.HIGH,
    COLLISION_THRESHOLDS.MODERATE, COLLISION_THRESHOLDS.LOW.
  qcases; intuition (auto; lra).
Qed.

(** C1. For every distance [d >= 0] the classification is critical exactly
    when [d < 1], high exactly when [1 <= d < 5], moderate exactly when
    [5 <= d < 10], low exactly when [10 <= d < 25] and safe exactly when
    [25 <= d]; 0.999 km is critical and 1.001 km is high; and the level
    depends on the value of the distance only. *)
Theorem getRiskLevel_bands (d : Q) :
  (0 <= d)%Q ->
  (getRiskLevel d = "critical" <-> (d < 1)%Q) /\
  (getRiskLevel d = "high" <-> (1 <= d < 5)%Q) /\
  (getRiskLevel d = "moderate" <-> (5 <= d < 10)%Q) /\
  (getRiskLevel d = "low" <-> (10 <= d < 25)%Q) /\
  (getRiskLevel d = "safe" <-> (25 <= d)%Q) /\
  getRiskLevel (999 # 1000) = "critical" /\
  getRiskLevel (1001 # 1000) = "high" /\
  (forall d' : Q, (d' == d)%Q -> getRiskLevel d' = getRiskLevel d).
Proof.
  intros _.
  pose proof (getRiskLevel_cases d) as Hc.
  repeat apply conj; try reflexivity.
  1-10: intros H;
    destruct Hc as [[? E]|[[? E]|[[? E]|[[? E]|[? E]]]]];
    first [ exact E | lra | rewrite E in H; discriminate H ].
  intros d' Hd'.
  destruct Hc as [[? E]|[[? E]|[[? E]|[[? E]|[? E]]]]];
    destruct (getRiskLevel_cases d') as [[? E']|[[? E']|[[? E']|[[? E']|[? E']]]]];
    rewrite E, E'; first [ reflexivity | lra ].
Qed.

End RiskBands.

(** ** The probability heuristic *)

Section Probability.
Import CollisionService.

Lemma probability_cases (d : Q) :
  (d < 1 /\ calculateCollisionProbability d = Qmin (99 # 100) (1 - d / 1 * (5 # 10)))%Q \/
  (1 <= d < 5 /\ calculateCollisionProbability d = (1 # 10) + (5 - d) / 5 * (4 # 10))%Q \/
  (5 <= d < 10 /\ calculateCollisionProbability d = (1 # 100) + (10 - d) / 10 * (9 # 100))%Q \/
  (10 <= d < 25 /\ calculateCollisionProbability d = (1 # 1000) + (25 - d) / 25 * (9 # 1000))%Q \/
  (25 <= d /\ calculateCollisionProbability d = 1 # 10000)%Q.
Proof.
  unfold calculateCollisionProbability, COLLISION_THRESHOLDS.CRITICAL,
    COLLISION_THRESHOLDS.HIGH, COLLISION_THRESHOLDS.MODERATE,
    COLLISION_THRESHOLDS.LOW.
  qcases; intuition (auto; lra).
Qed.

Lemma critical_value (d : Q) :
  (0 <= d -> d < 1 ->
   (1 # 2) < Qmin (99 # 100) (1 - d / 1 * (5 # 10)) <= 99 # 100)%Q.
Proof.
  intros H0 H1.
  destruct (Q.min_spec (99 # 100) (1 - d / 1 * (5 # 10))) as [[Hlt E]|[Hle E]];
    qdiv; lra.
Qed.

Lemma critical_antitone (d1 d2 : Q) :
  (d1 <= d2 ->
   Qmin (99 # 100) (1 - d2 / 1 * (5 # 10)) <= Qmin (99 # 100) (1 - d1 / 1 * (5 # 10)))%Q.
Proof.
  intros H.
  destruct (Q.min_spec (99 # 100) (1 - d1 / 1 * (5 # 10))) as [[? E1]|[? E1]];
    destruct (Q.min_spec (99 # 100) (1 - d2 / 1 * (5 # 10))) as [[? E2]|[? E2]];
    qdiv; lra.
Qed.

Lemma critical_shape (d : Q) :
  (d < 1 ->
   (d <= 1 # 50 -> Qmin (99 # 100) (1 - d / 1 * (5 # 10)) == 99 # 100) /\
   (d <= 1 # 2 -> 3 # 4 <= Qmin (99 # 100) (1 - d / 1 * (5 # 10))) /\
   (1 # 2 <= d -> Qmin (99 # 100) (1 - d / 1 * (5 # 10)) <= 3 # 4))%Q.
Proof.
  intros H1.
  destruct (Q.min_spec (99 # 100) (1 - d / 1 * (5 # 10))) as [[Hlt E]|[Hle E]];
    rewrite E; qdiv; repeat split; intros; lra.
Qed.

(** C8, as the code has it. For every distance [d >= 0] the estimate lies
    strictly between 0 and 1 and is at most 0.99; for [d < d2] in the same
    risk band the estimate at [d2] is at most the estimate at [d]; and
    inside the critical band the estimate is capped: it is 0.99 at every
    distance up to 0.02 km, at least three quarters up to 0.5 km, at most
    three quarters from 0.5 km on, and never below one half. *)
Theorem calculateCollisionProbability_band_monotone (d : Q) :
  (0 <= d)%Q ->
  (0 < calculateCollisionProbability d < 1)%Q /\
  (calculateCollisionProbability d <= 99 # 100)%Q /\
  (forall d2 : Q, (d < d2)%Q -> getRiskLevel d = getRiskLevel d2 ->
     (calculateCollisionProbability d2 <= calculateCollisionProbability d)%Q) /\
  ((d < 1)%Q ->
     ((1 # 2) <= calculateCollisionProbability d)%Q /\
     ((d <= 1 # 50)%Q -> (calculateCollisionProbability d == 99 # 100)%Q) /\
     ((d <= 1 # 2)%Q -> (3 # 4 <= calculateCollisionProbability d)%Q) /\
     ((1 # 2 <= d)%Q -> (calculateCollisionProbability d <= 3 # 4)%Q)).
Proof.
  intros H0.
  assert (Hb : (0 < calculateCollisionProbability d <= 99 # 100)%Q).
  { destruct (probability_cases d) as [[? E]|[[? E]|[[? E]|[[? E]|[? E]]]]];
      rewrite E; try (qdiv; lra).
    pose proof (critical_value d H0 H). lra. }
  split; [lra|]. split; [lra|]. split.
  - intros d2 Hlt Hband.
    destruct (getRiskLevel_cases d) as [[? R]|[[? R]|[[? R]|[[? R]|[? R]]]]];
      destruct (getRiskLevel_cases d2) as [[? R2]|[[? R2]|[[? R2]|[[? R2]|[? R2]]]]];
      rewrite R, R2 in Hband; try discriminate Hband;
      destruct (probability_cases d) as [[? E]|[[? E]|[[? E]|[[? E]|[? E]]]]];
      try lra;
      destruct (probability_cases d2) as [[? E2]|[[? E2]|[[? E2]|[[? E2]|[? E2]]]]];
      try lra; rewrite E, E2; try (qdiv; lra).
    apply critical_antitone; lra.
  - intros H1.
    destruct (probability_cases d) as [[? E]|[[? E]|[[? E]|[[? E]|[? E]]]]];
      try lra.
    rewrite E. pose proof (critical_value d H0 H1) as Hv.
    destruct (critical_shape d H1) as (S1 & S2 & S3).
    split; [lra|]. split; [exact S1|]. split; [exact S2|exact S3].
Qed.

End Probability.

(** ** Compass bucketing *)

Section Compass.
Import PassService.

Lemma Math_round_bounds (q : Q) (lo hi : Z) :
  (inject_Z lo - (1 # 2) <= q)%Q -> (q < inject_Z hi + (1 # 2))%Q ->
  lo <= Math_round q <= hi.
Proof.
  intros Hlo Hhi. unfold Math_round.
  split.
  - rewrite <- (Qfloor_Z lo). apply Qfloor_resp_le. lra.
  - assert (Qfloor (q + (1 # 2)) < hi + 1); [|lia].
    rewrite Zlt_Qlt, inject_Z_plus. change (inject_Z 1) with 1%Q.
    pose proof (Qfloor_le (q + (1 # 2))). lra.
Qed.

(** C10. For every azimuth in [[0, 360)] the computed index
    [Math.round(azimuth / 22.5) % 16] lies in [0 .. 15], so the lookup in
    the sixteen-entry [directions] array returns one of its strings and
    not [undefined]. *)
Theorem getCardinalDirection_in_bounds (azimuth : Q) :
  (0 <= azimuth < 360)%Q ->
  0 <= directionIndex azimuth < Z.of_nat (length directions) /\
  exists s : string,
    getCardinalDirection azimuth = Some s /\ s ∈ directions.
Proof.
  intros [H0 H360].
  assert (Hr : 0 <= Math_round (azimuth / (45 # 2)) <= 16).
  { apply Math_round_bounds.
    - change (inject_Z 0) with 0%Q.
      assert (0 <= azimuth / (45 # 2))%Q; [|lra].
      apply Qle_shift_div_l; lra.
    - change (inject_Z 16) with 16%Q.
      assert (azimuth / (45 # 2) < 16)%Q; [|lra].
      apply Qlt_shift_div_r; lra. }
  assert (Hi : 0 <= directionIndex azimuth < 16).
  { unfold directionIndex. rewrite Z.rem_mod_nonneg by lia.
    apply Z.mod_pos_bound. lia. }
  split; [exact Hi|].
  unfold getCardinalDirection.
  destruct (Z.ltb_spec (directionIndex azimuth) 0) as [?|_]; [lia|].
  destruct (directions !! Z.to_nat (directionIndex azimuth)) as [s|] eqn:E.
  - exists s. split; [reflexivity|]. eapply list_elem_of_lookup_2, E.
  - apply lookup_ge_None in E. simpl in E. lia.
Qed.

End Compass.

(** ** Sorting and slicing *)

Section SortSlice.
Import CollisionService.
Context {S : Type}.
Implicit Types (c : Conjunction S) (l : list (Conjunction S)).

Lemma insertByDistance_Permutation c l : insertByDistance c l ≡ₚ c :: l.
Proof.
  induction l as [|c' l IH]; simpl; [reflexivity|].
  destruct (Num_leb _ _); [reflexivity|].
  rewrite IH. apply Permutation_swap.
Qed.

Lemma sortByDistance_Permutation l : sortByDistance l ≡ₚ l.
Proof.
  induction l as [|c l IH]; simpl; [reflexivity|].
  unfold sortByDistance in *. simpl.
  rewrite insertByDistance_Permutation, IH. reflexivity.
Qed.

Lemma slice0_sublist {A} (n : Z) (k : list A) : slice0 n k `sublist_of` k.
Proof. unfold slice0. destruct (n <? 0); apply sublist_take. Qed.

Lemma elem_of_sorted_slice c n l :
  c ∈ slice0 n (sortByDistance l) -> c ∈ l.
Proof.
  intros H. rewrite <- (sortByDistance_Permutation l).
  eapply elem_of_sublist; [exact H|]. apply slice0_sublist.
Qed.

Lemma NoDup_sorted_slice {B} (f : Conjunction S -> B) n l :
  NoDup (f <$> l) -> NoDup (f <$> slice0 n (sortByDistance l)).
Proof.
  intros H. eapply sublist_NoDup; [|apply fmap_sublist, slice0_sublist].
  rewrite (sortByDistance_Permutation l). exact H.
Qed.

End SortSlice.

(** ** The pairwise scan of [findAllConjunctions] *)

Section AllConjunctions.
Import SatelliteService CollisionService.
Context {Satrec : Type} {math : JsMath} {sgp4 : SatelliteJs Satrec}.
Implicit Types (si sj : Satellite Satrec) (st : ScanState (Satrec := Satrec)).

Lemma scanPairs_pairsVisited t th sats st :
  scanPairs t th sats st =
  fold_left (fun st p => checkPair t th p.1 p.2 st) (pairsVisited sats) st.
Proof.
  revert st. induction sats as [|si rest IH]; intros st; simpl; [reflexivity|].
  rewrite fold_left_app, IH. f_equal.
  generalize st. clear. induction rest as [|sj rest IH]; intros st; simpl; auto.
Qed.

Lemma checkPair_pushes t th si sj st :
  (checkPair t th si sj st).2 = st.2 \/
  exists c, (checkPair t th si sj st).2 = st.2 ++ [c] /\
            Reported t th c /\ objectIds c = satIds (si, sj).
Proof.
  destruct st as [checked conjunctions]. unfold checkPair.
  destruct (decide _); [left; reflexivity|].
  destruct (Qltb 50 _); [left; reflexivity|].
  destruct (calculateDistance si sj t) as [d|] eqn:Hd; [|left; reflexivity].
  destruct (Num_leb (Finite d) th) eqn:Hle; [|left; reflexivity].
  right. eexists. split; [reflexivity|].
  apply Num_leb_true in Hle. split; [|reflexivity].
  exists d. by repeat split.
Qed.

Lemma scan_pushes t th (ps : list (Satellite Satrec * Satellite Satrec)) st :
  exists l,
    (fold_left (fun st p => checkPair t th p.1 p.2 st) ps st).2 = st.2 ++ l /\
    Forall (Reported t th) l /\
    (objectIds <$> l) `sublist_of` (satIds <$> ps).
Proof.
  revert st. induction ps as [|[si sj] ps IH]; intros st; simpl.
  - exists []. rewrite app_nil_r. repeat split; constructor.
  - destruct (IH (checkPair t th si sj st)) as (l & -> & Hl & Hsub).
    destruct (checkPair_pushes t th si sj st) as [->|(c & -> & Hc & Hid)].
    + exists l. repeat split; auto. by apply sublist_cons.
    + exists (c :: l). rewrite <- app_assoc. repeat split; auto.
      simpl. rewrite Hid. by apply sublist_skip.
Qed.

Lemma findAllConjunctions_scan sats t th m :
  exists l,
    findAllConjunctions sats t th m = slice0 m (sortByDistance l) /\
    Forall (Reported t th) l /\
    (objectIds <$> l) `sublist_of` (satIds <$> pairsVisited sats).
Proof.
  unfold findAllConjunctions. rewrite scanPairs_pairsVisited.
  destruct (scan_pushes t th (pairsVisited sats) (∅, [])) as (l & E & Hl & Hsub).
  destruct (fold_left _ _ _) as [checked conjunctions]. simpl in E. subst.
  exists l. auto.
Qed.

Lemma findAllConjunctions_Reported sats t th m :
  Forall (Reported t th) (findAllConjunctions sats t th m).
Proof.
  destruct (findAllConjunctions_scan sats t th m) as (l & -> & Hl & _).
  rewrite Forall_forall in *. intros c Hc. apply Hl.
  eapply elem_of_sorted_slice, Hc.
Qed.

Lemma pairsVisited_members sats si sj :
  (si, sj) ∈ pairsVisited sats -> si ∈ sats /\ sj ∈ sats.
Proof.
  induction sats as [|s rest IH]; simpl; [by intros ?%elem_of_nil|].
  rewrite elem_of_app, list_elem_of_fmap.
  intros [(s' & E & Hs')|Hin].
  - injection E as -> ->. split; [left|by right].
  - destruct (IH Hin). split; by right.
Qed.

Lemma NoDup_fmap_inj_on {A B} (f : A -> B) (l : list A) (a b : A) :
  NoDup (f <$> l) -> a ∈ l -> b ∈ l -> f a = f b -> a = b.
Proof.
  induction l as [|c l IH]; simpl; [by intros _ ?%elem_of_nil|].
  intros [Hc Hl]%NoDup_cons [->|Ha]%elem_of_cons [->|Hb]%elem_of_cons E; auto.
  - exfalso. apply Hc. rewrite E. by apply list_elem_of_fmap_2.
  - exfalso. apply Hc. rewrite <- E. by apply list_elem_of_fmap_2.
Qed.

Lemma unordered_eq_inv (a b a' b' : Z) :
  unordered (a, b) = unordered (a', b') ->
  (a = a' /\ b = b') \/ (a = b' /\ b = a').
Proof. unfold unordered; simpl. intros [= H1 H2]. lia. Qed.

Lemma pairsVisited_NoDup (sats : list (Satellite Satrec)) :
  NoDup (noradId <$> sats) ->
  NoDup (unordered <$> (satIds <$> pairsVisited sats)).
Proof.
  induction sats as [|s rest IH]; simpl; [constructor|].
  intros [Hs Hrest]%NoDup_cons.
  rewrite !fmap_app. apply NoDup_app. split; [|split].
  - rewrite <- !list_fmap_compose.
    apply NoDup_fmap_2_strong; [|by eapply NoDup_fmap_1].
    intros sj sj' Hj Hj' E. unfold satIds in E; simpl in E.
    apply unordered_eq_inv in E as [[_ E]|[E _]].
    + eapply NoDup_fmap_inj_on; eauto.
    + exfalso. apply Hs. rewrite E. by apply list_elem_of_fmap_2.
  - intros p Hp Hq.
    apply list_elem_of_fmap in Hp as (q & -> & Hq1).
    apply list_elem_of_fmap in Hq1 as (pr & -> & Hpr).
    apply list_elem_of_fmap in Hpr as (sj & -> & Hsj).
    apply list_elem_of_fmap in Hq as (q' & E & Hq').
    apply list_elem_of_fmap in Hq' as ([a b] & -> & Hab).
    apply pairsVisited_members in Hab as [Ha Hb].
    unfold satIds in E; simpl in E.
    apply unordered_eq_inv in E as [[E _]|[E _]];
      apply Hs; rewrite E; by apply list_elem_of_fmap_2.
  - by apply IH.
Qed.

(** C3. When the records' identifiers are pairwise distinct, the nested
    loops visit every unordered pair of identifiers at most once, and the
    returned list contains no two conjunctions with the same unordered
    pair of identifiers. *)
Theorem findAllConjunctions_unique_pairs
    (sats : list (Satellite Satrec)) (t : Z) (threshold : Num) (maxResults : Z) :
  NoDup (noradId <$> sats) ->
  NoDup (unordered <$> (satIds <$> pairsVisited sats)) /\
  NoDup (unordered <$> (objectIds <$> findAllConjunctions sats t threshold maxResults)).
Proof.
  intros Hids. pose proof (pairsVisited_NoDup sats Hids) as Hv.
  split; [exact Hv|].
  destruct (findAllConjunctions_scan sats t threshold maxResults)
    as (l & -> & _ & Hsub).
  rewrite <- list_fmap_compose. apply NoDup_sorted_slice.
  rewrite list_fmap_compose.
  eapply sublist_NoDup; [exact Hv|]. by apply fmap_sublist.
Qed.

(** How far the default search can stray from "no safe conjunction": every
    returned conjunction has a distance of at most 25 km and carries the
    risk level of that distance, so it is classified safe only when the
    distance is exactly 25 km, where the inclusive threshold test and the
    exclusive band test disagree. *)
Lemma findAllConjunctions_default_safe_only_at_threshold
    (sats : list (Satellite Satrec)) (t : Z) :
  Forall (fun c =>
            exists d : Q,
              distance c = Finite d /\
              (d <= 25)%Q /\
              risk c = getRiskLevel d /\
              ((d < 25)%Q -> risk c <> "safe") /\
              (risk c = "safe" -> (d == 25)%Q))
         (findAllConjunctions_default sats t).
Proof.
  unfold findAllConjunctions_default.
  eapply Forall_impl; [apply findAllConjunctions_Reported|].
  intros c (d & Hd & _ & Hle & _ & Hrisk & _).
  simpl in Hle. unfold COLLISION_THRESHOLDS.LOW in Hle.
  exists d. split; [exact Hd|]. split; [exact Hle|]. split; [exact Hrisk|].
  rewrite Hrisk.
  destruct (getRiskLevel_cases d)
    as [[? E]|[[? E]|[[? E]|[[? E]|[? E]]]]]; rewrite E;
    split; intros; try discriminate; lra.
Qed.

End AllConjunctions.

(** ** The forward scan of [findCloseApproaches] *)

Section CloseApproaches.
Import SatelliteService CollisionService.
Context {Satrec : Type} {math : JsMath} {sgp4 : SatelliteJs Satrec}.
Implicit Types (target candidate : Satellite Satrec).

(** The bound on the length of [times] never cuts the [for] loop short:
    every instant [t + k * step] up to [stop] is sampled. *)
Lemma sampleTimes_complete (n : nat) (t stop step k : Z) :
  0 < step -> stop < t + Z.of_nat n * step ->
  0 <= k -> t + k * step <= stop ->
  t + k * step ∈ sampleTimes n t stop step.
Proof.
  intros Hstep. revert t k.
  induction n as [|n IH]; intros t k Hn Hk Hle; simpl; [nia|].
  destruct (Z.leb_spec t stop) as [_|Hgt]; [|nia].
  destruct (decide (k = 0)) as [->|Hk0].
  - rewrite Z.add_0_r. left.
  - right. replace (t + k * step) with (t + step + (k - 1) * step) by lia.
    apply IH; nia.
Qed.

Lemma approachTimes_complete (startTime : Z) (hoursAhead : Q) (stop k : Z) :
  - MAX_TIME <= startTime <= MAX_TIME ->
  newDate (inject_Z startTime + hoursAhead * 60 * 60 * 1000) = Some stop ->
  0 <= k -> startTime + k * 300000 <= stop ->
  startTime + k * 300000 ∈ approachTimes startTime hoursAhead.
Proof.
  intros Hstart Hstop Hk Hle. unfold approachTimes, stepMinutes.
  rewrite (newDate_valid _ Hstart), Hstop.
  change (5 * 60 * 1000) with 300000.
  apply sampleTimes_complete; try lia.
  pose proof (Z.div_mod (stop - startTime) 300000 ltac:(lia)) as Hdm.
  pose proof (Z.mod_pos_bound (stop - startTime) 300000 ltac:(lia)) as Hm.
  rewrite Z2Nat.id; nia.
Qed.

Lemma getPositionAtTime_failure (rec : Satrec) (t : Z) :
  propagate rec t = PropThrows \/ propagate rec t = PropReturns None ->
  getPositionAtTime rec t = None.
Proof. unfold getPositionAtTime. by intros [-> | ->]. Qed.

Lemma calculateDistance_null (sat1 sat2 : Satellite Satrec) (t : Z) :
  getPositionAtTime (satrec sat1) t = None \/
  getPositionAtTime (satrec sat2) t = None ->
  calculateDistance sat1 sat2 t = None.
Proof.
  unfold calculateDistance. intros [-> | ->]; [reflexivity|].
  by destruct (getPositionAtTime (satrec sat1) t).
Qed.

Lemma scan_skips_failures target candidate (times : list Z) acc :
  fold_left (scanSample target candidate) times acc =
  fold_left (scanSample target candidate)
    (filter (fun t => is_Some (calculateDistance target candidate t)) times) acc.
Proof.
  revert acc. induction times as [|t times IH]; intros acc; [reflexivity|].
  rewrite filter_cons. simpl.
  destruct (decide _) as [Hs|Hn]; simpl; [apply IH|].
  rewrite IH. f_equal. unfold scanSample.
  destruct (calculateDistance target candidate t); [|reflexivity].
  exfalso. apply Hn. by eexists.
Qed.

Lemma hasSample_false target candidate (times : list Z) :
  hasSample target times candidate = false ->
  filter (fun t => is_Some (calculateDistance target candidate t)) times = [].
Proof.
  unfold hasSample. induction times as [|t times IH]; simpl; [reflexivity|].
  intros [Ht Hr]%orb_false_iff. rewrite filter_cons.
  apply bool_decide_eq_false in Ht.
  destruct (decide _); [contradiction|]. by apply IH.
Qed.

Lemma scanCandidate_all_failed target candidate (times : list Z) :
  hasSample target times candidate = false ->
  scanCandidate target candidate times = (Infinity, None).
Proof.
  intros H. unfold scanCandidate.
  rewrite scan_skips_failures, (hasSample_false _ _ _ H). reflexivity.
Qed.

Lemma checkCandidate_all_failed target candidate (times : list Z) (th : Q)
    approaches :
  hasSample target times candidate = false ->
  checkCandidate target times (Finite th) approaches candidate = approaches.
Proof.
  intros H. unfold checkCandidate.
  by rewrite (scanCandidate_all_failed _ _ _ H).
Qed.

Lemma candidates_all_failed target (times : list Z) (th : Q)
    (all : list (Satellite Satrec)) approaches :
  fold_left (checkCandidate target times (Finite th))
    (filter (fun s => isCandidate target s = true)
       (filter (fun s => hasSample target times s = true) all)) approaches =
  fold_left (checkCandidate target times (Finite th))
    (filter (fun s => isCandidate target s = true) all) approaches.
Proof.
  revert approaches. induction all as [|s all IH]; intros approaches;
    [reflexivity|].
  rewrite (filter_cons (fun s => hasSample _ _ s = true)).
  rewrite (filter_cons (fun s => isCandidate _ s = true) s all).
  destruct (decide (hasSample target times s = true)) as [Hs|Hs].
  - rewrite filter_cons. destruct (decide _); simpl; apply IH.
  - apply not_true_is_false in Hs.
    destruct (decide _); simpl; [|apply IH].
    rewrite (checkCandidate_all_failed _ _ _ _ _ Hs). apply IH.
Qed.

(** C4, as the code has it. A failed propagation of either object makes
    [calculateDistance] return [null]; the scan of a pair gives the same
    minimum as the scan of the instants at which the distance was
    available, so a failed sample is only skipped; and under every finite
    threshold a pair all of whose samples failed adds nothing to the
    result, and the whole search returns what it returns without those
    pairs, so the other pairs are unaffected. *)
Theorem findCloseApproaches_contains_failures
    target (allSatellites : list (Satellite Satrec))
    (startTime : Z) (hoursAhead threshold : Q) (maxResults : Z) :
  let times := approachTimes startTime hoursAhead in
  (forall (s : Satellite Satrec) (t : Z),
     propagate (satrec s) t = PropThrows \/
     propagate (satrec s) t = PropReturns None ->
     getPositionAtTime (satrec s) t = None) /\
  (forall (sat1 sat2 : Satellite Satrec) (t : Z),
     getPositionAtTime (satrec sat1) t = None \/
     getPositionAtTime (satrec sat2) t = None ->
     calculateDistance sat1 sat2 t = None) /\
  (forall candidate,
     scanCandidate target candidate times =
     scanCandidate target candidate
       (filter (fun t => is_Some (calculateDistance target candidate t)) times)) /\
  (forall candidate approaches,
     hasSample target times candidate = false ->
     checkCandidate target times (Finite threshold) approaches candidate
       = approaches) /\
  findCloseApproaches target allSatellites startTime hoursAhead
    (Finite threshold) maxResults =
  findCloseApproaches target
    (filter (fun s => hasSample target times s = true) allSatellites)
    startTime hoursAhead (Finite threshold) maxResults.
Proof.
  intros times. repeat apply conj.
  - intros s t. apply getPositionAtTime_failure.
  - apply calculateDistance_null.
  - intros candidate. apply scan_skips_failures.
  - intros candidate approaches. apply checkCandidate_all_failed.
  - unfold findCloseApproaches. fold times.
    by rewrite candidates_all_failed.
Qed.

End CloseApproaches.

(** ** The pass state machine: invariants *)

Section PassInvariants.
Import PassService.
Context {Satrec : Type} {sgp4 : SatelliteJs Satrec}.
Implicit Types (p : Pass Satrec) (st : LoopState Satrec) (la : LookAngle).
Implicit Types (sat : Satellite Satrec) (obs : Observer).

Lemma visit_lookAt sat obs t st :
  visit sat obs t st =
  match lookAt sat obs t with
  | Some la => observe sat t la st
  | None => st
  end.
Proof.
  unfold visit, lookAt.
  by destruct (propagate (satrec sat) t) as [|[position|]].
Qed.

Lemma Tracked_mono t t' p : t <= t' -> Tracked t p -> Tracked t' p.
Proof.
  intros Ht (Hpts & Hmax & Htm). split; [|split; [exact Hmax|lia]].
  eapply Forall_impl; [exact Hpts|]. simpl. intros pt (? & ? & ?).
  repeat split; auto; lia.
Qed.

Lemma LoopInv_mono t t' st : t <= t' -> LoopInv t st -> LoopInv t' st.
Proof.
  intros Ht [Hp Hc]. split; [exact Hp|].
  intros Hin. destruct (Hc Hin) as (p & E & Hpt & Hend).
  exists p. eauto using Tracked_mono.
Qed.

(** The first sample of a pass. *)
Lemma Tracked_open sat t t' la :
  t < t' -> (MIN_ELEVATION <= elevation la)%Q ->
  Tracked t' (pushPoint (trackMax (openPass sat t la) t la) t la).
Proof.
  intros Ht Hel. unfold trackMax.
  destruct (Qltb _ _) eqn:Hlt; [apply Qltb_true in Hlt; simpl in Hlt; lra|].
  split; [|split]; simpl; [| |lia].
  - constructor; [|constructor]. simpl. repeat split; try lia; try lra.
  - by constructor.
Qed.

(** A further sample at or above the threshold, taken at [t]. *)
Lemma Tracked_push t t' p la :
  t < t' -> (MIN_ELEVATION <= elevation la)%Q ->
  Tracked t p -> Tracked t' (pushPoint (trackMax p t la) t la).
Proof.
  intros Ht Hel (Hpts & Hmax & Htm). unfold trackMax.
  destruct (Qltb _ _) eqn:Hlt;
    [apply Qltb_true in Hlt|apply Qltb_false in Hlt];
    (split; [|split]); simpl; try lia.
  - apply Forall_app. split.
    + eapply Forall_impl; [exact Hpts|]. simpl. intros pt (? & ? & ?).
      repeat split; auto; try lia; lra.
    + constructor; [|constructor]. simpl. repeat split; try lia; lra.
  - apply Exists_app. right. by constructor.
  - apply Forall_app. split.
    + eapply Forall_impl; [exact Hpts|]. simpl. intros pt (? & ? & ?).
      repeat split; auto; lia.
    + constructor; [|constructor]. simpl. repeat split; try lia; lra.
  - apply Exists_app. by left.
Qed.

Lemma pushPoint_trackMax_start p t la :
  startTime (pushPoint (trackMax p t la) t la) = startTime p /\
  endAzimuth (pushPoint (trackMax p t la) t la) = endAzimuth p.
Proof. unfold trackMax. by destruct (Qltb _ _). Qed.

Lemma Tracked_max_ge bound p :
  Tracked bound p -> (MIN_ELEVATION <= maxElevation p)%Q.
Proof.
  intros (Hpts & Hmax & _). apply Exists_exists in Hmax as (pt & Hin & E & _).
  rewrite Forall_forall in Hpts. destruct (Hpts pt Hin) as (? & _). by rewrite <- E.
Qed.

Lemma closePass_Closed p t la :
  Tracked t p -> (60 <= secondsBetween (startTime p) t)%Q ->
  Closed (closePass p t la).
Proof. intros Hp Hd. exists t. by repeat split; simpl; try apply Hp. Qed.

Lemma closeAtHorizon_Closed p t :
  Tracked t p -> (60 <= secondsBetween (startTime p) t)%Q ->
  Closed (closeAtHorizon p t).
Proof. intros Hp Hd. exists t. by repeat split; simpl; try apply Hp. Qed.

Lemma observe_LoopInv sat t t' la st :
  t < t' -> LoopInv t st -> LoopInv t' (observe sat t la st).
Proof.
  intros Ht [Hps Hcur]. unfold observe.
  destruct (Qleb MIN_ELEVATION (elevation la)) eqn:Hel.
  - apply Qleb_true in Hel. destruct (inPass st) eqn:Hin.
    + destruct Hcur as (p & -> & Hp & Hend); [done|].
      split; simpl; [exact Hps|]. intros _.
      eexists. split; [reflexivity|]. split; [by apply Tracked_push|].
      by rewrite (proj2 (pushPoint_trackMax_start p t la)).
    + simpl. split; simpl; [exact Hps|]. intros _.
      eexists. split; [reflexivity|]. split; [by apply Tracked_open|].
      by rewrite (proj2 (pushPoint_trackMax_start _ t la)).
  - destruct (inPass st) eqn:Hin;
      [|apply (LoopInv_mono t); [lia|split; [exact Hps|by rewrite Hin]]].
    destruct Hcur as (p & -> & Hp & Hend); [done|].
    split; simpl; [|done].
    destruct (Qleb 60 _) eqn:Hd; simpl; [|exact Hps].
    destruct (Qleb MIN_ELEVATION (maxElevation p)); simpl; [|exact Hps].
    apply Forall_app. split; [exact Hps|].
    constructor; [|constructor]. apply closePass_Closed; [exact Hp|].
    by apply Qleb_true.
Qed.

Lemma TIME_STEP_pos : 0 < TIME_STEP.
Proof. reflexivity. Qed.

Lemma sweep_LoopInv fuel sat obs stop t st :
  LoopInv t st ->
  LoopInv (sweep fuel sat obs stop t st).1 (sweep fuel sat obs stop t st).2.
Proof.
  revert t st. induction fuel as [|fuel IH]; intros t st Hinv; simpl; [done|].
  destruct (t <? stop); [|done]. apply IH.
  rewrite visit_lookAt. pose proof TIME_STEP_pos.
  destruct (lookAt sat obs t) as [la|].
  - apply observe_LoopInv; [lia|done].
  - apply (LoopInv_mono t); [lia|done].
Qed.

Lemma iterations_enough d : d <= Z.of_nat (iterations d) * TIME_STEP.
Proof.
  unfold iterations, TIME_STEP. change (60 * 1000) with 60000.
  pose proof (Z.div_mod (d + 60000 - 1) 60000 ltac:(lia)) as Hdm.
  pose proof (Z.mod_pos_bound (d + 60000 - 1) 60000 ltac:(lia)) as Hm.
  destruct ((d + 60000 - 1) / 60000) eqn:E; simpl; lia.
Qed.

Lemma sweep_exits fuel sat obs stop t st :
  stop <= t + Z.of_nat fuel * TIME_STEP ->
  stop <= (sweep fuel sat obs stop t st).1.
Proof.
  revert t st. induction fuel as [|fuel IH]; intros t st H; simpl.
  - lia.
  - destruct (Z.ltb_spec t stop) as [Hlt|Hge]; [|exact Hge].
    apply IH. unfold TIME_STEP in *. lia.
Qed.

Lemma sweep_done fuel sat obs stop t st :
  stop <= t -> sweep fuel sat obs stop t st = (t, st).
Proof.
  intros H. destruct fuel as [|fuel]; simpl; [reflexivity|].
  destruct (Z.ltb_spec t stop); [lia|reflexivity].
Qed.

Lemma sweep_bound fuel sat obs stop t st :
  t <= (sweep fuel sat obs stop t st).1 <= Z.max t (stop + TIME_STEP - 1).
Proof.
  pose proof TIME_STEP_pos as Hpos.
  revert t st. induction fuel as [|fuel IH]; intros t st; simpl; [lia|].
  destruct (Z.ltb_spec t stop) as [Hlt|Hge]; simpl; [|lia].
  specialize (IH (t + TIME_STEP) (visit sat obs t st)). lia.
Qed.

(** While its instants are valid dates the loop is [sweep]; it stops one
    step early, with an Invalid Date for [time], when the next instant is
    not, and [sweep] stops there as well, that instant being past
    [endTime]. *)
Lemma loop_sweep fuel sat obs stop t st :
  - MAX_TIME <= t <= MAX_TIME -> stop <= MAX_TIME ->
  loop fuel sat obs stop t st =
  (newDate (inject_Z (sweep fuel sat obs stop t st).1),
   (sweep fuel sat obs stop t st).2).
Proof.
  pose proof TIME_STEP_pos as Hpos.
  revert t st. induction fuel as [|fuel IH]; intros t st Ht Hs; simpl.
  - by rewrite newDate_valid.
  - destruct (Z.ltb_spec t stop) as [Hlt|Hge];
      [|by rewrite newDate_valid].
    destruct (newDate_cases (t + TIME_STEP)) as [[Hv E]|[Hi E]]; rewrite E.
    + by apply IH.
    + rewrite sweep_done by lia. simpl. by rewrite E.
Qed.

(** The bound on the number of iterations never cuts the loop short: it
    ends because [time < endTime] fails, [time] being an Invalid Date or a
    date from [endTime] on. *)
Lemma calculatePasses_loop_exits sat obs start d :
  - MAX_TIME <= start <= MAX_TIME -> start + d <= MAX_TIME ->
  match (loop (iterations d) sat obs (start + d) start initialState).1 with
  | Some t => start + d <= t
  | None => True
  end.
Proof.
  intros Hs Hd. rewrite loop_sweep by assumption. simpl.
  pose proof (sweep_exits (iterations d) sat obs (start + d) start initialState)
    as He.
  destruct (newDate_cases (sweep (iterations d) sat obs (start + d) start
                             initialState).1) as [[_ E]|[_ E]];
    rewrite E; [|exact I].
  apply He. pose proof (iterations_enough d). lia.
Qed.

Lemma finish_None st : finish None st = passes st.
Proof. unfold finish. by destruct (inPass st), (currentPass st). Qed.

Lemma finish_Closed t st : LoopInv t st -> Forall Closed (finish (Some t) st).
Proof.
  intros [Hps Hcur]. unfold finish.
  destruct (inPass st); [|done].
  destruct Hcur as (p & -> & Hp & _); [done|].
  destruct (Qleb 60 _) eqn:Hd; [|done].
  apply Forall_app. split; [done|]. constructor; [|constructor].
  apply closeAtHorizon_Closed; [done|]. by apply Qleb_true.
Qed.

(** What [calculatePasses] returns, in terms of [sweep]: nothing when a
    date is invalid from the start, the passes closed inside the loop when
    the last [time] is invalid, and otherwise those and the pass closed
    after the loop. *)
Lemma calculatePasses_cases sat obs start d :
  calculatePasses sat obs start d = [] \/
  exists t st,
    sweep (iterations d) sat obs (start + d) start initialState = (t, st) /\
    (calculatePasses sat obs start d = finish (Some t) st \/
     calculatePasses sat obs start d = passes st).
Proof.
  unfold calculatePasses.
  destruct (newDate_cases start) as [[Hs ->]|[_ ->]]; [|by left].
  destruct (newDate_cases (start + d)) as [[Hd ->]|[_ ->]]; [|by left].
  right. rewrite loop_sweep by lia.
  destruct (sweep _ _ _ _ _ _) as [t st]. exists t, st. split; [reflexivity|].
  simpl. destruct (newDate_cases t) as [[_ ->]|[_ ->]]; [by left|].
  right. apply finish_None.
Qed.

Lemma calculatePasses_in_range sat obs start d :
  InRange start d ->
  calculatePasses sat obs start d =
  finish (Some (sweep (iterations d) sat obs (start + d) start initialState).1)
    (sweep (iterations d) sat obs (start + d) start initialState).2.
Proof.
  intros (Hs & Hlo & Hhi). pose proof TIME_STEP_pos as Hpos.
  unfold calculatePasses.
  rewrite (newDate_valid start), (newDate_valid (start + d)) by lia.
  rewrite loop_sweep by lia.
  pose proof (sweep_bound (iterations d) sat obs (start + d) start initialState)
    as Hb.
  rewrite newDate_valid by lia. reflexivity.
Qed.

Lemma calculatePasses_Closed sat obs start d :
  Forall Closed (calculatePasses sat obs start d).
Proof.
  pose proof (sweep_LoopInv (iterations d) sat obs (start + d) start initialState)
    as H.
  destruct (calculatePasses_cases sat obs start d)
    as [->|(t & st & E & [-> | ->])]; [constructor| |];
    rewrite E in H; simpl in H.
  - apply finish_Closed, H. split; simpl; [constructor|done].
  - apply H. split; simpl; [constructor|done].
Qed.

(** C2. Every sample stored in a returned pass has an elevation of at
    least [MIN_ELEVATION] (10 degrees); the pass's [maxElevation] is an
    upper bound of the stored elevations and is the elevation of one of
    the stored samples; and every stored sample's time lies between the
    pass's [startTime] and [endTime]. *)
Theorem calculatePasses_samples_invariant
    (sat : Satellite Satrec) (observerGd : Observer) (start d : Z) :
  Forall (fun p =>
            exists e : Z,
              endTime p = Some e /\
              points p <> [] /\
              Forall (fun pt =>
                        (10 <= Point.elevation pt)%Q /\
                        (Point.elevation pt <= maxElevation p)%Q /\
                        startTime p <= Point.time pt <= e) (points p) /\
              Exists (fun pt => Point.elevation pt = maxElevation p) (points p))
         (calculatePasses sat observerGd start d).
Proof.
  eapply Forall_impl; [apply calculatePasses_Closed|].
  intros p (e & He & (Hpts & Hmax & _) & _). exists e.
  split; [exact He|]. split; [by destruct Hmax|]. split.
  - eapply Forall_impl; [exact Hpts|]. simpl. intros pt (? & ? & ?).
    repeat split; auto; lia.
  - eapply Exists_impl; [exact Hmax|]. by intros pt [? _].
Qed.

End PassInvariants.

(** ** The pass state machine over a single visibility window *)

Section PassWindows.
Import PassService.
Context {Satrec : Type} {sgp4 : SatelliteJs Satrec}.
Variables (sat : Satellite Satrec) (obs : Observer).
Implicit Types (p : Pass Satrec) (st : LoopState Satrec) (la : LookAngle).

(** What [calculatePasses] returns when the loop is entered at [t] with
    variables [st] and [fuel] iterations to go. *)
Local Abbreviation run stop fuel t st :=
  (finish (Some (sweep fuel sat obs stop t st).1) (sweep fuel sat obs stop t st).2).

Lemma calculatePasses_run start d :
  InRange start d ->
  calculatePasses sat obs start d =
  run (start + d) (iterations d) start initialState.
Proof. apply calculatePasses_in_range. Qed.

Lemma run_step stop fuel t st :
  run stop (S fuel) t st =
  if t <? stop then run stop fuel (t + TIME_STEP) (visit sat obs t st)
  else finish (Some t) st.
Proof. simpl. by destruct (t <? stop). Qed.

Lemma secondsBetween_ge s t : s + TIME_STEP <= t -> (60 <= secondsBetween s t)%Q.
Proof.
  unfold secondsBetween, TIME_STEP. intros H.
  apply Qle_shift_div_l; [reflexivity|].
  change (60 * 1000)%Q with (inject_Z 60000). rewrite <- Zle_Qle. lia.
Qed.

Lemma observe_below_idle t la st :
  (elevation la < MIN_ELEVATION)%Q -> inPass st = false ->
  observe sat t la st = st.
Proof.
  intros H Hin. apply Qleb_false in H. unfold observe. by rewrite H, Hin.
Qed.

Lemma observe_above_open t la st :
  (MIN_ELEVATION <= elevation la)%Q -> inPass st = false ->
  observe sat t la st =
  {| passes := passes st; inPass := true;
     currentPass := Some (pushPoint (trackMax (openPass sat t la) t la) t la) |}.
Proof.
  intros H Hin. apply Qleb_true in H. unfold observe. by rewrite H, Hin.
Qed.

Lemma observe_above_continue t la st p :
  (MIN_ELEVATION <= elevation la)%Q ->
  inPass st = true -> currentPass st = Some p ->
  observe sat t la st =
  {| passes := passes st; inPass := true;
     currentPass := Some (pushPoint (trackMax p t la) t la) |}.
Proof.
  intros H Hin Hp. apply Qleb_true in H. unfold observe.
  by rewrite H, Hin, Hp, Hin.
Qed.

Lemma observe_below_close t la st p :
  (elevation la < MIN_ELEVATION)%Q ->
  inPass st = true -> currentPass st = Some p ->
  (MIN_ELEVATION <= maxElevation p)%Q ->
  observe sat t la st =
  {| passes :=
       if Qleb 60 (secondsBetween (startTime p) t)
       then passes st ++ [closePass p t la] else passes st;
     inPass := false; currentPass := None |}.
Proof.
  intros H Hin Hp Hmax. apply Qleb_false in H. apply Qleb_true in Hmax.
  unfold observe. rewrite H, Hin, Hp. simpl. rewrite Hmax.
  by rewrite andb_true_r.
Qed.

Lemma finish_in_pass t st p :
  inPass st = true -> currentPass st = Some p ->
  finish (Some t) st =
  if Qleb 60 (secondsBetween (startTime p) t)
  then passes st ++ [closeAtHorizon p t] else passes st.
Proof. intros Hin Hp. unfold finish. by rewrite Hin, Hp. Qed.

Lemma trackMax_max p t la :
  (MIN_ELEVATION <= maxElevation p)%Q ->
  (MIN_ELEVATION <= maxElevation (pushPoint (trackMax p t la) t la))%Q.
Proof.
  intros H. unfold trackMax. destruct (Qltb _ _) eqn:E; simpl; [|exact H].
  apply Qltb_true in E. lra.
Qed.

Section Window.
Variables (a b stop : Z).
Hypothesis visible : VisibleExactly sat obs a b.

(** After the window nothing more is recorded. *)
Lemma run_after fuel t st :
  inPass st = false -> b <= t -> run stop fuel t st = passes st.
Proof.
  revert t st. induction fuel as [|fuel IH]; intros t st Hin Hb.
  - simpl. unfold finish. by rewrite Hin.
  - rewrite run_step. destruct (t <? stop); [|unfold finish; by rewrite Hin].
    rewrite visit_lookAt. destruct (visible t) as (la & -> & Hla).
    rewrite observe_below_idle; [|apply Qnot_le_lt; rewrite Hla; lia|exact Hin].
    apply IH; [exact Hin|]. pose proof TIME_STEP_pos. lia.
Qed.

(** Inside a pass that began at least one step ago: exactly one pass is
    added, closed at the first sampled instant [e] outside the window or
    the horizon. *)
Lemma run_inside fuel t st p :
  stop <= t + Z.of_nat fuel * TIME_STEP ->
  inPass st = true -> currentPass st = Some p ->
  (MIN_ELEVATION <= maxElevation p)%Q ->
  startTime p + TIME_STEP <= t -> a <= t ->
  exists p' e,
    run stop fuel t st = passes st ++ [p'] /\
    startTime p' = startTime p /\
    endTime p' = Some e /\
    duration p' = Some (secondsBetween (startTime p) e) /\
    t <= e /\ (b <= t \/ stop <= t -> e = t).
Proof.
  revert t st p.
  induction fuel as [|fuel IH]; intros t st p Hfuel Hin Hp Hmax Hs Ha.
  - simpl. rewrite (finish_in_pass _ _ p Hin Hp).
    rewrite (proj2 (Qleb_true _ _) (secondsBetween_ge _ _ Hs)).
    exists (closeAtHorizon p t), t. repeat split; auto; lia.
  - rewrite run_step. destruct (Z.ltb_spec t stop) as [Hlt|Hge].
    + rewrite visit_lookAt. destruct (visible t) as (la & -> & Hla).
      destruct (Z.lt_ge_cases t b) as [Hb|Hb].
      * assert (Hel : (MIN_ELEVATION <= elevation la)%Q) by (apply Hla; lia).
        rewrite (observe_above_continue _ _ _ p Hel Hin Hp).
        set (q := pushPoint (trackMax p t la) t la).
        assert (Hq : startTime q = startTime p)
          by apply (pushPoint_trackMax_start p t la).
        assert (F1 : stop <= t + TIME_STEP + Z.of_nat fuel * TIME_STEP)
          by (unfold TIME_STEP in *; lia).
        assert (F2 : startTime q + TIME_STEP <= t + TIME_STEP)
          by (unfold TIME_STEP in *; lia).
        assert (F3 : a <= t + TIME_STEP) by (unfold TIME_STEP in *; lia).
        destruct (IH (t + TIME_STEP)
                    {| passes := passes st; inPass := true; currentPass := Some q |}
                    q F1 eq_refl eq_refl (trackMax_max p t la Hmax) F2 F3)
          as (p' & e & E & H1 & H2 & H3 & H4 & H5).
        rewrite Hq in *. exists p', e. simpl in E.
        repeat split; auto; unfold TIME_STEP in *; lia.
      * assert (Hel : (elevation la < MIN_ELEVATION)%Q)
          by (apply Qnot_le_lt; rewrite Hla; lia).
        rewrite (observe_below_close _ _ _ p Hel Hin Hp Hmax).
        rewrite (proj2 (Qleb_true _ _) (secondsBetween_ge _ _ Hs)).
        rewrite run_after; [|reflexivity|pose proof TIME_STEP_pos; lia].
        exists (closePass p t la), t. simpl. repeat split; auto; lia.
    + rewrite (finish_in_pass _ _ p Hin Hp).
      rewrite (proj2 (Qleb_true _ _) (secondsBetween_ge _ _ Hs)).
      exists (closeAtHorizon p t), t. repeat split; auto; lia.
Qed.

(** Before a pass: either no sampled instant falls inside the window and
    nothing is added, or the first one that does, [t1], starts the only
    pass added. *)
Lemma run_before fuel t st :
  stop <= t + Z.of_nat fuel * TIME_STEP ->
  inPass st = false ->
  (run stop fuel t st = passes st /\
   forall k, 0 <= k -> t + k * TIME_STEP < stop ->
             ~ (a <= t + k * TIME_STEP < b)) \/
  (exists p' t1 e k,
     0 <= k /\ t1 = t + k * TIME_STEP /\ t1 < stop /\ a <= t1 < b /\
     run stop fuel t st = passes st ++ [p'] /\
     startTime p' = t1 /\ endTime p' = Some e /\
     duration p' = Some (secondsBetween t1 e) /\
     t1 + TIME_STEP <= e /\ (b <= t1 + TIME_STEP -> e = t1 + TIME_STEP)).
Proof.
  revert t st. induction fuel as [|fuel IH]; intros t st Hfuel Hin.
  - left. simpl. unfold finish. rewrite Hin. split; [reflexivity|].
    unfold TIME_STEP in *. intros k Hk Hlt. lia.
  - rewrite run_step. destruct (Z.ltb_spec t stop) as [Hlt|Hge].
    + rewrite visit_lookAt. destruct (visible t) as (la & -> & Hla).
      destruct (decide (a <= t < b)) as [Hw|Hw].
      * right.
        assert (Hel : (MIN_ELEVATION <= elevation la)%Q) by (by apply Hla).
        rewrite (observe_above_open _ _ _ Hel Hin).
        set (q := pushPoint (trackMax (openPass sat t la) t la) t la).
        assert (Hq : startTime q = t)
          by apply (pushPoint_trackMax_start (openPass sat t la) t la).
        assert (F1 : stop <= t + TIME_STEP + Z.of_nat fuel * TIME_STEP)
          by (unfold TIME_STEP in *; lia).
        assert (F2 : startTime q + TIME_STEP <= t + TIME_STEP)
          by (unfold TIME_STEP in *; lia).
        assert (F3 : a <= t + TIME_STEP) by (unfold TIME_STEP in *; lia).
        destruct (run_inside fuel (t + TIME_STEP)
                    {| passes := passes st; inPass := true; currentPass := Some q |}
                    q F1 eq_refl eq_refl
                    (trackMax_max (openPass sat t la) t la Hel) F2 F3)
          as (p' & e & E & H1 & H2 & H3 & H4 & H5).
        rewrite Hq in *. simpl in E.
        exists p', t, e, 0. repeat split; auto; try lia.
      * assert (Hel : (elevation la < MIN_ELEVATION)%Q)
          by (apply Qnot_le_lt; by rewrite Hla).
        rewrite (observe_below_idle _ _ _ Hel Hin).
        assert (F1 : stop <= t + TIME_STEP + Z.of_nat fuel * TIME_STEP)
          by (unfold TIME_STEP in *; lia).
        destruct (IH (t + TIME_STEP) st F1 Hin)
          as [[E Hno]|(p' & t1 & e & k & Hk & Ht1 & H)].
        -- left. split; [exact E|]. intros k Hk Hlt'.
           destruct (decide (k = 0)) as [->|Hk0]; [by rewrite Z.add_0_r|].
           specialize (Hno (k - 1)). unfold TIME_STEP in *.
           replace (t + 60 * 1000 + (k - 1) * (60 * 1000)) with (t + k * (60 * 1000))
             in Hno by lia.
           apply Hno; lia.
        -- right. exists p', t1, e, (k + 1). split; [lia|]. split; [|exact H].
           rewrite Ht1. unfold TIME_STEP. lia.
    + left. unfold finish. rewrite Hin. split; [reflexivity|].
      unfold TIME_STEP in *. intros k Hk Hlt. lia.
Qed.

End Window.

Lemma calculatePasses_window (start d a b : Z) :
  InRange start d ->
  VisibleExactly sat obs a b ->
  (calculatePasses sat obs start d = [] /\
   forall t, Sampled start d t -> ~ (a <= t < b)) \/
  (exists p' t1 e,
     Sampled start d t1 /\ a <= t1 < b /\
     calculatePasses sat obs start d = [p'] /\
     startTime p' = t1 /\ endTime p' = Some e /\
     duration p' = Some (secondsBetween t1 e) /\
     t1 + TIME_STEP <= e /\ (b <= t1 + TIME_STEP -> e = t1 + TIME_STEP)).
Proof.
  intros Hrange Hvis. rewrite calculatePasses_run by exact Hrange.
  assert (Hfuel : start + d <= start + Z.of_nat (iterations d) * TIME_STEP)
    by (pose proof (iterations_enough d); lia).
  destruct (run_before a b (start + d) Hvis (iterations d) start initialState
              Hfuel eq_refl)
    as [[E Hno]|(p' & t1 & e & k & Hk & Ht1 & Hlt & Hw & E & H)].
  - left. split; [exact E|]. intros t (k & Hk & -> & Hlt). by apply Hno.
  - right. exists p', t1, e. split; [by exists k|]. split; [exact Hw|].
    split; [exact E|exact H].
Qed.

(** C5, as the code has it. A pass that ends at a sample below the
    threshold, or at the horizon, is kept exactly when its computed
    duration (closing instant minus first sample, in seconds) is at least
    60, and a pass whose closing instant is an Invalid Date is dropped; so
    every returned pass has a computed duration of at least 60.  For a
    search window inside the range of dates: over an orbit visible for 30
    seconds the function returns no pass when no sampled instant falls
    inside the window, and exactly one pass, of computed duration 60
    seconds, when one does; over an orbit visible for 90 seconds inside
    the search window it returns exactly one pass. *)
Theorem calculatePasses_duration_filter (start d a : Z) :
  (forall st p t la,
     inPass st = true -> currentPass st = Some p ->
     (MIN_ELEVATION <= maxElevation p)%Q ->
     (elevation la < MIN_ELEVATION)%Q ->
     passes (observe sat t la st) =
       if Qleb 60 (secondsBetween (startTime p) t)
       then passes st ++ [closePass p t la] else passes st) /\
  (forall st p t,
     inPass st = true -> currentPass st = Some p ->
     finish (Some t) st =
       if Qleb 60 (secondsBetween (startTime p) t)
       then passes st ++ [closeAtHorizon p t] else passes st) /\
  (forall st, finish None st = passes st) /\
  Forall (fun p => exists secs : Q, duration p = Some secs /\ (60 <= secs)%Q)
    (calculatePasses sat obs start d) /\
  (InRange start d ->
   VisibleExactly sat obs a (a + 30000) ->
     ((forall t, Sampled start d t -> ~ (a <= t < a + 30000)) ->
      calculatePasses sat obs start d = []) /\
     (forall t, Sampled start d t -> a <= t < a + 30000 ->
      exists p,
        calculatePasses sat obs start d = [p] /\
        startTime p = t /\ endTime p = Some (t + TIME_STEP) /\
        duration p = Some (secondsBetween t (t + TIME_STEP)) /\
        (secondsBetween t (t + TIME_STEP) == 60)%Q)) /\
  (InRange start d ->
   VisibleExactly sat obs a (a + 90000) ->
     start <= a -> a + 90000 <= start + d ->
     exists p, calculatePasses sat obs start d = [p]).
Proof.
  split; [|split; [|split; [|split; [|split]]]].
  - intros st p t la Hin Hp Hmax Hel.
    by rewrite (observe_below_close _ _ _ p Hel Hin Hp Hmax).
  - intros st p t. apply finish_in_pass.
  - apply finish_None.
  - eapply Forall_impl; [apply calculatePasses_Closed|].
    intros p (e & _ & _ & Hd & Hle). by eexists.
  - intros Hrange Hvis.
    destruct (calculatePasses_window start d a (a + 30000) Hrange Hvis)
      as [[E Hno]|(p' & t1 & e & Hs1 & Hw1 & E & Hst & Hend & Hdur & Hle & He)].
    + split; [by intros _|]. intros t Hs Hw. by destruct (Hno t Hs).
    + split; [intros Hno; by destruct (Hno t1 Hs1)|].
      intros t (k & Hk & Ht & Hlt) Hw. destruct Hs1 as (k1 & Hk1 & Ht1 & Hlt1).
      assert (t1 = t) as -> by (unfold TIME_STEP in *; lia).
      assert (e = t + TIME_STEP) as -> by (apply He; unfold TIME_STEP; lia).
      exists p'. repeat split; auto.
      unfold secondsBetween. replace (t + TIME_STEP - t) with 60000
        by (unfold TIME_STEP; lia).
      reflexivity.
  - intros Hrange Hvis Hstart Hstop.
    destruct (calculatePasses_window start d a (a + 90000) Hrange Hvis)
      as [[E Hno]|(p' & t1 & e & _ & _ & E & _)]; [|by exists p'].
    exfalso.
    pose proof (Z.div_mod (a - start + 59999) 60000 ltac:(lia)) as Hdm.
    pose proof (Z.mod_pos_bound (a - start + 59999) 60000 ltac:(lia)) as Hm.
    apply (Hno (start + (a - start + 59999) / 60000 * TIME_STEP)).
    + exists ((a - start + 59999) / 60000). unfold TIME_STEP.
      repeat split; lia.
    + unfold TIME_STEP. lia.
Qed.

(** What the boundary path leaves out: a pass closed after the loop keeps
    the [undefined] end azimuth and end direction of an open pass, while a
    pass closed by a sample below the threshold has both set. *)
Lemma closeAtHorizon_end_fields p t la :
  endAzimuth p = None -> endDirection p = None ->
  endAzimuth (closeAtHorizon p t) = None /\
  endDirection (closeAtHorizon p t) = None /\
  endAzimuth (closePass p t la) = Some (azimuth la) /\
  endDirection (closePass p t la) = getCardinalDirection (azimuth la).
Proof. intros H1 H2. by repeat split. Qed.

End PassWindows.

(** ** Distances between two objects *)

Section Distances.
Import SatelliteService CollisionService.
Context {Satrec : Type} {math : JsMath} {sgp4 : SatelliteJs Satrec}.
Hypothesis sqrt_proper : Proper (Qeq ==> Qeq) Math_sqrt.

(** X1. The distance does not depend on the order of the two objects:
    swapping them gives [null] in the same cases and the same number
    otherwise. *)
Theorem calculateDistance_symmetric (sat1 sat2 : Satellite Satrec) (t : Z) :
  match calculateDistance sat1 sat2 t, calculateDistance sat2 sat1 t with
  | Some d, Some d' => (d == d')%Q
  | None, None => True
  | _, _ => False
  end.
Proof.
  unfold calculateDistance.
  destruct (getPositionAtTime (satrec sat1) t) as [pos1|],
           (getPositionAtTime (satrec sat2) t) as [pos2|]; try exact I.
  apply sqrt_proper. unfold Qdiv. ring.
Qed.

End Distances.

(** ** Order and size of the search results *)

Section ResultOrder.
Import CollisionService.
Context {S : Type}.
Implicit Types (c : Conjunction S) (l : list (Conjunction S)).

Lemma insertByDistance_sorted c l :
  StronglySorted closer l -> StronglySorted closer (insertByDistance c l).
Proof.
  induction l as [|c' l IH]; simpl; intros Hl.
  - repeat constructor.
  - apply StronglySorted_cons in Hl as [Hc' Hl].
    destruct (Num_leb (distance c) (distance c')) eqn:E.
    + apply Num_leb_true in E. rewrite StronglySorted_cons. split.
      * constructor; [exact E|].
        eapply Forall_impl; [exact Hc'|]. unfold closer. intros c2.
        by apply Num_le_trans.
      * by rewrite StronglySorted_cons.
    + apply Num_leb_false in E. rewrite StronglySorted_cons. split; [|auto].
      rewrite insertByDistance_Permutation. constructor; [exact E|exact Hc'].
Qed.

Lemma sortByDistance_sorted l : StronglySorted closer (sortByDistance l).
Proof.
  induction l as [|c l IH]; [constructor|].
  apply insertByDistance_sorted, IH.
Qed.

Lemma slice0_sorted {A} (R : relation A) (n : Z) (k : list A) :
  StronglySorted R k -> StronglySorted R (slice0 n k).
Proof.
  intros H. unfold slice0.
  destruct (n <? 0);
    [rewrite <- (take_drop (Z.to_nat (Z.of_nat (length k) + n)) k) in H
    |rewrite <- (take_drop (Z.to_nat n) k) in H];
    by apply StronglySorted_app_1_l in H.
Qed.

Lemma slice0_prefix {A} (m M : Z) (k : list A) :
  0 <= m <= M ->
  slice0 m k = take (Z.to_nat m) (slice0 M k) /\
  (length (slice0 m k) <= Z.to_nat m)%nat.
Proof.
  intros H. unfold slice0.
  destruct (Z.ltb_spec m 0), (Z.ltb_spec M 0); try lia.
  rewrite take_take, length_take. split; [f_equal|]; lia.
Qed.

End ResultOrder.

Section SearchResults.
Import SatelliteService CollisionService.
Context {Satrec : Type} {math : JsMath} {sgp4 : SatelliteJs Satrec}.
Implicit Types (si sj target candidate : Satellite Satrec).

(** X3. Both searches return their results in ascending order of
    distance. *)
Theorem search_results_sorted
    (sats : list (Satellite Satrec)) target
    (t : Z) (hoursAhead : Q) (threshold : Num) (maxResults : Z) :
  StronglySorted closer (findAllConjunctions sats t threshold maxResults) /\
  StronglySorted closer
    (findCloseApproaches target sats t hoursAhead threshold maxResults).
Proof.
  split.
  - unfold findAllConjunctions. destruct (scanPairs _ _ _ _) as [checked l].
    apply slice0_sorted, sortByDistance_sorted.
  - apply slice0_sorted, sortByDistance_sorted.
Qed.

(** X4. For [0 <= m <= M] the results for [maxResults = m] are the first
    [m] of the results for [maxResults = M], so with X3 a smaller limit
    keeps the closest ones; and no more than [m] are returned. *)
Theorem search_results_prefix
    (sats : list (Satellite Satrec)) target
    (t : Z) (hoursAhead : Q) (threshold : Num) (m M : Z) :
  0 <= m <= M ->
  (findAllConjunctions sats t threshold m =
     take (Z.to_nat m) (findAllConjunctions sats t threshold M) /\
   (length (findAllConjunctions sats t threshold m) <= Z.to_nat m)%nat) /\
  (findCloseApproaches target sats t hoursAhead threshold m =
     take (Z.to_nat m) (findCloseApproaches target sats t hoursAhead threshold M) /\
   (length (findCloseApproaches target sats t hoursAhead threshold m)
      <= Z.to_nat m)%nat).
Proof.
  intros H. split.
  - unfold findAllConjunctions. destruct (scanPairs _ _ _ _) as [checked l].
    by apply slice0_prefix.
  - by apply slice0_prefix.
Qed.





End SearchResults.

(** ** Pair keys and the completeness of the pairwise scan *)

Section PairKeys.
Import CollisionService.

Lemma pretty_N_go_dashFree (n : N) (s : string) :
  dashFree s -> dashFree (pretty_N_go n s).
Proof.
  revert s. induction (N.lt_wf_0 n) as [n _ IH]; intros s Hs.
  destruct (decide (n = 0)%N) as [->|Hn]; [by rewrite pretty_N_go_0|].
  rewrite pretty_N_go_step by lia. apply IH; [apply N.div_lt; lia|].
  split; [|exact Hs]. unfold pretty_N_char. repeat case_match; discriminate.
Qed.

Lemma pretty_N_go_nonempty (n : N) (s : string) :
  s <> "" -> pretty_N_go n s <> "".
Proof.
  revert s. induction (N.lt_wf_0 n) as [n _ IH]; intros s Hs.
  destruct (decide (n = 0)%N) as [->|Hn]; [by rewrite pretty_N_go_0|].
  rewrite pretty_N_go_step by lia. apply IH; [apply N.div_lt; lia|discriminate].
Qed.

Lemma pretty_N_shape (n : N) : dashFree (pretty n) /\ pretty n <> "".
Proof.
  unfold pretty, pretty_N. case_decide as Hn.
  - split; [simpl; split; [discriminate|exact I]|discriminate].
  - split; [by apply pretty_N_go_dashFree|].
    rewrite pretty_N_go_step by lia. by apply pretty_N_go_nonempty.
Qed.

Lemma pretty_Z_shape (z : Z) :
  (dashFree (pretty z) /\ pretty z <> "") \/
  (exists u, pretty z = String "-" u /\ dashFree u /\ u <> "").
Proof.
  destruct z as [|q|q]; unfold pretty, pretty_Z.
  - left. split; [simpl; split; [discriminate|exact I]|discriminate].
  - left. apply (pretty_N_shape (N.pos q)).
  - right. exists (pretty (N.pos q)). split; [reflexivity|].
    apply pretty_N_shape.
Qed.

Lemma key_split (u u' r r' : string) :
  dashFree u -> dashFree u' ->
  u +:+ String "-" r = u' +:+ String "-" r' -> u = u' /\ r = r'.
Proof.
  revert u'. induction u as [|c u IH]; intros [|c' u'] Hu Hu' E; simpl in *.
  - by injection E.
  - injection E as <- _. by destruct Hu' as [? _].
  - injection E as -> _. by destruct Hu as [? _].
  - injection E as -> E. destruct Hu as [_ Hu], Hu' as [_ Hu'].
    destruct (IH u' Hu Hu' E) as [-> ->]. done.
Qed.

Lemma idKey_inj (a b a' b' : Z) :
  pretty a +:+ "-" +:+ pretty b = pretty a' +:+ "-" +:+ pretty b' ->
  a = a' /\ b = b'.
Proof.
  change ("-" +:+ pretty b) with (String "-" (pretty b)).
  change ("-" +:+ pretty b') with (String "-" (pretty b')).
  intros E.
  destruct (pretty_Z_shape a) as [[Ha Hna]|(u & Eu & Hu & Hnu)],
           (pretty_Z_shape a') as [[Ha' Hna']|(u' & Eu' & Hu' & Hnu')].
  - destruct (key_split _ _ _ _ Ha Ha' E) as [E1 E2].
    split; by apply (inj pretty).
  - rewrite Eu' in E. destruct (pretty a) as [|c s] eqn:Ea; [done|].
    simpl in E. injection E as -> _. by destruct Ha as [? _].
  - rewrite Eu in E. destruct (pretty a') as [|c s] eqn:Ea'; [done|].
    simpl in E. injection E as <- _. by destruct Ha' as [? _].
  - pose proof E as E0. rewrite Eu, Eu' in E. simpl in E. injection E as E.
    destruct (key_split _ _ _ _ Hu Hu' E) as [E1 E2].
    split; apply (inj pretty); [congruence|exact E2].
Qed.

Context {Satrec : Type} {math : JsMath} {sgp4 : SatelliteJs Satrec}.
Implicit Types (si sj : Satellite Satrec) (st : ScanState (Satrec := Satrec)).

Lemma pairKey_inj si sj si' sj' :
  pairKey si sj = pairKey si' sj' ->
  noradId si = noradId si' /\ noradId sj = noradId sj'.
Proof. apply idKey_inj. Qed.

Lemma checkPair_checked t th si sj st (k : string) :
  k ∈ (checkPair t th si sj st).1 -> k ∈ st.1 \/ k = pairKey si sj.
Proof.
  destruct st as [checked conjunctions]. unfold checkPair.
  destruct (decide _); [by left|].
  destruct (Qltb 50 _); [simpl; set_solver|].
  destruct (calculateDistance si sj t) as [d|]; [|simpl; set_solver].
  destruct (Num_leb (Finite d) th); simpl; set_solver.
Qed.

Lemma checkPair_fresh t th si sj st (d : Q) :
  pairKey si sj ∉ st.1 ->
  (altitudeGap si sj <= 50)%Q ->
  calculateDistance si sj t = Some d -> Num_le (Finite d) th ->
  exists c, (checkPair t th si sj st).2 = st.2 ++ [c] /\
            satellite1 c = si /\ satellite2 c = sj /\ distance c = Finite d.
Proof.
  destruct st as [checked conjunctions]. unfold checkPair.
  intros Hk Hgap Hd Hle. simpl in Hk.
  destruct (decide _); [contradiction|]. cbv zeta.
  apply Qltb_false in Hgap. unfold altitudeGap in Hgap. rewrite Hgap, Hd.
  apply Num_leb_true in Hle. rewrite Hle. eexists. by repeat split.
Qed.

Lemma scan_complete t th (ps : list (Satellite Satrec * Satellite Satrec)) st
    si sj (d : Q) :
  NoDup ((fun p => pairKey p.1 p.2) <$> ps) ->
  (forall p, p ∈ ps -> pairKey p.1 p.2 ∉ st.1) ->
  (si, sj) ∈ ps ->
  (altitudeGap si sj <= 50)%Q ->
  calculateDistance si sj t = Some d -> Num_le (Finite d) th ->
  exists c,
    c ∈ (fold_left (fun st p => checkPair t th p.1 p.2 st) ps st).2 /\
    satellite1 c = si /\ satellite2 c = sj /\ distance c = Finite d.
Proof.
  intros Hnd Hfresh Hin Hgap Hd Hle. revert st Hnd Hfresh Hin.
  induction ps as [|[a b] ps IH]; intros st Hnd Hfresh Hin;
    [by apply elem_of_nil in Hin|].
  simpl in *. apply NoDup_cons in Hnd as [Hab Hnd].
  apply elem_of_cons in Hin as [E|Hin].
  - injection E as <- <-.
    destruct (checkPair_fresh t th si sj st d) as (c & Ec & Hc);
      [apply (Hfresh (si, sj)); left|assumption..|].
    destruct (scan_pushes t th ps (checkPair t th si sj st)) as (l & -> & _).
    exists c. split; [|exact Hc].
    rewrite Ec. apply elem_of_app. left. apply elem_of_app. right. left.
  - apply IH; [exact Hnd| |exact Hin].
    intros p Hp Hk. apply checkPair_checked in Hk as [Hk|Hk].
    + apply (Hfresh p); [by right|exact Hk].
    + apply Hab. rewrite <- Hk. by apply (list_elem_of_fmap_2 (fun p => pairKey p.1 p.2)).
Qed.

Lemma pairsVisited_of_lookup (sats : list (Satellite Satrec)) (i j : nat) si sj :
  (i < j)%nat -> sats !! i = Some si -> sats !! j = Some sj ->
  (si, sj) ∈ pairsVisited sats.
Proof.
  revert i j. induction sats as [|s rest IH]; intros i j Hij Hi Hj;
    [discriminate Hi|].
  simpl. apply elem_of_app. destruct i as [|i].
  - left. injection Hi as ->. destruct j as [|j]; [lia|]. simpl in Hj.
    apply list_elem_of_fmap_2. by eapply list_elem_of_lookup_2.
  - right. destruct j as [|j]; [lia|]. apply (IH i j); [lia|exact Hi|exact Hj].
Qed.

(** X6. With pairwise distinct identifiers and a result limit that does
    not cut the list, the scan misses nothing it is meant to find: every
    object and a later one that are within 50 km of altitude and at a
    measured distance within the threshold appear as a conjunction with
    that distance. *)
Theorem findAllConjunctions_complete
    (sats : list (Satellite Satrec)) (t : Z) (threshold : Num) (maxResults : Z)
    (i j : nat) si sj (d : Q) :
  NoDup (noradId <$> sats) ->
  Z.of_nat (length (pairsVisited sats)) <= maxResults ->
  (i < j)%nat -> sats !! i = Some si -> sats !! j = Some sj ->
  (altitudeGap si sj <= 50)%Q ->
  calculateDistance si sj t = Some d -> Num_le (Finite d) threshold ->
  exists c,
    c ∈ findAllConjunctions sats t threshold maxResults /\
    satellite1 c = si /\ satellite2 c = sj /\ distance c = Finite d.
Proof.
  intros Hids Hmax Hij Hi Hj Hgap Hd Hle.
  pose proof (pairsVisited_of_lookup sats i j si sj Hij Hi Hj) as Hin.
  assert (Hkeys : NoDup ((fun p => pairKey p.1 p.2) <$> pairsVisited sats)).
  { pose proof (pairsVisited_NoDup sats Hids) as Hu.
    apply NoDup_fmap_1 in Hu.
    apply NoDup_fmap_2_strong; [|by eapply NoDup_fmap_1].
    intros p q Hp Hq E. apply pairKey_inj in E as [E1 E2].
    eapply (NoDup_fmap_inj_on satIds); eauto.
    unfold satIds. by rewrite E1, E2. }
  destruct (scan_complete t threshold (pairsVisited sats) (∅, []) si sj d
              Hkeys) as (c & Hc & Hprops); try assumption.
  { intros p _. simpl. set_solver. }
  exists c. split; [|exact Hprops].
  unfold findAllConjunctions. rewrite scanPairs_pairsVisited.
  destruct (scan_pushes t threshold (pairsVisited sats) (∅, []))
    as (l & E & _ & Hsub).
  destruct (fold_left _ _ _) as [checked conjunctions]. simpl in *. subst.
  unfold slice0. destruct (Z.ltb_spec maxResults 0) as [?|_]; [lia|].
  rewrite take_ge.
  - by rewrite sortByDistance_Permutation.
  - rewrite sortByDistance_Permutation.
    apply sublist_length in Hsub. rewrite !length_fmap in Hsub. lia.
Qed.

End PairKeys.

(** ** What the forward scan reports *)

Section ApproachResults.
Import SatelliteService CollisionService.
Context {Satrec : Type} {math : JsMath} {sgp4 : SatelliteJs Satrec}.
Implicit Types (target candidate : Satellite Satrec).

Lemma scanCandidate_spec target candidate (times : list Z) :
  match scanCandidate target candidate times with
  | (Finite d, Some t) => FirstMinimum target candidate times d t
  | (Infinity, None) => Unmeasured target candidate times
  | _ => False
  end.
Proof.
  induction times as [|t times IH] using rev_ind.
  - simpl. intros t Ht. by apply elem_of_nil in Ht.
  - unfold scanCandidate in *. rewrite fold_left_app. simpl.
    destruct (fold_left _ times _) as [[m|] [tm|]]; try contradiction;
      unfold scanSample; simpl;
      destruct (calculateDistance target candidate t) as [d|] eqn:Hd.
    + destruct IH as (earlier & later & -> & Hm & He & Hl).
      destruct (Qltb d m) eqn:Hlt;
        [apply Qltb_true in Hlt|apply Qltb_false in Hlt].
      * exists (earlier ++ tm :: later), []. split; [reflexivity|].
        split; [exact Hd|]. split; [|by intros ?? ?%elem_of_nil].
        intros t' d' Ht' Hd'.
        apply elem_of_app in Ht' as [Ht'|[->|Ht']%elem_of_cons].
        -- pose proof (He _ _ Ht' Hd'). lra.
        -- rewrite Hm in Hd'. injection Hd' as <-. exact Hlt.
        -- pose proof (Hl _ _ Ht' Hd'). lra.
      * exists earlier, (later ++ [t]). split; [by rewrite <- app_assoc|].
        split; [exact Hm|]. split; [exact He|].
        intros t' d' [Ht'|Ht'%list_elem_of_singleton]%elem_of_app Hd'.
        -- by eapply Hl.
        -- subst t'. rewrite Hd in Hd'. by injection Hd' as <-.
    + destruct IH as (earlier & later & -> & Hm & He & Hl).
      exists earlier, (later ++ [t]). split; [by rewrite <- app_assoc|].
      split; [exact Hm|]. split; [exact He|].
      intros t' d' [Ht'|Ht'%list_elem_of_singleton]%elem_of_app Hd'.
      * by eapply Hl.
      * subst t'. rewrite Hd in Hd'. discriminate Hd'.
    + exists times, []. split; [reflexivity|]. split; [exact Hd|].
      split; [|by intros ?? ?%elem_of_nil].
      intros t' d' Ht' Hd'. rewrite (IH t' Ht') in Hd'. discriminate Hd'.
    + intros t' [Ht'|Ht'%list_elem_of_singleton]%elem_of_app;
        [by apply IH|by subst].
Qed.

Lemma FirstMinimum_le target candidate (times : list Z) d t t' d' :
  FirstMinimum target candidate times d t ->
  t' ∈ times -> calculateDistance target candidate t' = Some d' ->
  (d <= d')%Q.
Proof.
  intros (earlier & later & -> & Hd & He & Hl) Ht' Hd'.
  apply elem_of_app in Ht' as [Ht'|[->|Ht']%elem_of_cons].
  - pose proof (He _ _ Ht' Hd'). lra.
  - rewrite Hd in Hd'. injection Hd' as <-. lra.
  - by eapply Hl.
Qed.

Lemma checkCandidate_spec target (times : list Z) th approaches candidate :
  (checkCandidate target times th approaches candidate = approaches /\
   forall t d, t ∈ times -> calculateDistance target candidate t = Some d ->
               ~ Num_le (Finite d) th) \/
  exists c, checkCandidate target times th approaches candidate = approaches ++ [c] /\
            ApproachOf target times th candidate c.
Proof.
  unfold checkCandidate.
  pose proof (scanCandidate_spec target candidate times) as Hs.
  destruct (scanCandidate target candidate times) as [[m|] [tm|]];
    try contradiction.
  - destruct (Num_leb (Finite m) th) eqn:Hle.
    + apply Num_leb_true in Hle. right. eexists. split; [reflexivity|].
      split; [reflexivity|]. split; [reflexivity|]. split; [exact Hle|].
      split; [reflexivity|]. split; [reflexivity|]. left. by exists m, tm.
    + left. split; [reflexivity|]. intros t d Ht Hd Hth.
      pose proof (FirstMinimum_le _ _ _ _ _ _ _ Hs Ht Hd) as Hmd.
      destruct th as [q|]; simpl in *; [|discriminate Hle].
      apply Qleb_false in Hle. lra.
  - destruct th as [q|]; simpl.
    + left. split; [reflexivity|]. intros t d Ht Hd.
      rewrite (Hs t Ht) in Hd. discriminate Hd.
    + right. eexists. split; [reflexivity|].
      split; [reflexivity|]. split; [reflexivity|]. split; [exact I|].
      split; [reflexivity|]. split; [reflexivity|]. right. by repeat split.
Qed.

Lemma candidates_spec target (times : list Z) th
    (candidates : list (Satellite Satrec)) approaches :
  exists l,
    fold_left (checkCandidate target times th) candidates approaches
      = approaches ++ l /\
    (length l <= length candidates)%nat /\
    Forall (fun c => exists candidate,
                candidate ∈ candidates /\
                ApproachOf target times th candidate c) l /\
    forall candidate t d,
      candidate ∈ candidates -> t ∈ times ->
      calculateDistance target candidate t = Some d -> Num_le (Finite d) th ->
      exists c, c ∈ l /\ ApproachOf target times th candidate c.
Proof.
  revert approaches.
  induction candidates as [|s candidates IH]; intros approaches; simpl.
  - exists []. rewrite app_nil_r.
    split; [reflexivity|]. split; [reflexivity|]. split; [constructor|].
    by intros ??? ?%elem_of_nil.
  - destruct (IH (checkCandidate target times th approaches s))
      as (l & -> & Hlen & Hl & Hall).
    assert (Hl' : Forall (fun c => exists candidate,
                candidate ∈ s :: candidates /\
                ApproachOf target times th candidate c) l).
    { eapply Forall_impl; [exact Hl|]. intros c (cand & ? & ?).
      exists cand. split; [by right|assumption]. }
    destruct (checkCandidate_spec target times th approaches s)
      as [[-> Hfar]|(c & -> & Hc)].
    + exists l. split; [reflexivity|]. split; [lia|]. split; [exact Hl'|].
      intros cand t d [->|Hin]%elem_of_cons Ht Hd Hle.
      * destruct (Hfar t d Ht Hd Hle).
      * eauto.
    + exists (c :: l). rewrite <- app_assoc.
      split; [reflexivity|]. split; [simpl; lia|]. split.
      * constructor; [|exact Hl']. exists s. split; [left|exact Hc].
      * intros cand t d [->|Hin]%elem_of_cons Ht Hd Hle.
        -- exists c. split; [left|exact Hc].
        -- destruct (Hall cand t d Hin Ht Hd Hle) as (c' & ? & ?).
           exists c'. split; [by right|assumption].
Qed.

Lemma isCandidate_true target (s : Satellite Satrec) :
  isCandidate target s = true <->
  noradId s <> noradId target /\ (altitudeGap s target < 100)%Q.
Proof.
  unfold isCandidate, altitudeGap.
  rewrite andb_true_iff, negb_true_iff, bool_decide_eq_false, Qltb_true.
  reflexivity.
Qed.

(** X7. Every approach [findCloseApproaches] returns pairs the target
    with another object of the input (a different identifier, less than
    100 km apart in altitude), at a distance within the threshold and with
    the risk level of that distance.  Either the distance is the smallest
    one measured over the sampled instants and the time the first instant
    that measured it; or the threshold is [Infinity], no sampled instant
    gave a distance, and the approach has the distance [Infinity], the
    time [null] and the risk safe. *)
Theorem findCloseApproaches_sound
    target (allSatellites : list (Satellite Satrec))
    (startTime : Z) (hoursAhead : Q) (threshold : Num) (maxResults : Z) :
  Forall (fun c =>
            satellite1 c = target /\
            satellite2 c ∈ allSatellites /\
            noradId (satellite2 c) <> noradId target /\
            (altitudeGap (satellite2 c) target < 100)%Q /\
            Num_le (distance c) threshold /\
            risk c = getRiskLevelOf (distance c) /\
            ((exists d t,
                distance c = Finite d /\ time c = Some t /\
                FirstMinimum target (satellite2 c)
                  (approachTimes startTime hoursAhead) d t) \/
             (threshold = Infinity /\ distance c = Infinity /\
              time c = None /\ risk c = "safe" /\
              forall t, t ∈ approachTimes startTime hoursAhead ->
                        calculateDistance target (satellite2 c) t = None)))
         (findCloseApproaches target allSatellites startTime hoursAhead
            threshold maxResults).
Proof.
  unfold findCloseApproaches.
  set (times := approachTimes startTime hoursAhead).
  destruct (candidates_spec target times threshold
              (filter (fun s => isCandidate target s = true) allSatellites) [])
    as (l & -> & _ & Hl & _).
  rewrite Forall_forall in *. intros c Hc%elem_of_sorted_slice.
  destruct (Hl c Hc) as (cand & Hcand & H1 & H2 & Hle & Hr & _ & Ht).
  apply list_elem_of_filter in Hcand as [Hok Hin].
  apply isCandidate_true in Hok as [Hid Hgap].
  rewrite H2. repeat (split; [assumption|]).
  destruct Ht as [Ht|(Hd & Htime & Hth & Hun)]; [by left|].
  right. rewrite Hr, Hd. by repeat split.
Qed.


End ApproachResults.

(** ** Colours and counters of the conjunction panel *)

Section Panel.
Import CollisionService CollisionAlerts.

(** X9. The colour shown for a distance identifies its risk band: two
    distances get the same colour exactly when they are in the same band;
    a level that is none of the four named ones gets the grey of safe. *)
Theorem getRiskColor_identifies_band (d1 d2 : Q) :
  (getRiskColor (getRiskLevel d1) = getRiskColor (getRiskLevel d2) <->
   getRiskLevel d1 = getRiskLevel d2) /\
  (forall r : string,
     r <> "critical" -> r <> "high" -> r <> "moderate" -> r <> "low" ->
     getRiskColor r = getRiskColor "safe").
Proof.
  split.
  - destruct (getRiskLevel_cases d1) as [[_ E]|[[_ E]|[[_ E]|[[_ E]|[_ E]]]]];
      destruct (getRiskLevel_cases d2) as [[_ F]|[[_ F]|[[_ F]|[[_ F]|[_ F]]]]];
      rewrite E, F; split; intros H; first [reflexivity|discriminate H].
  - intros r H1 H2 H3 H4. unfold getRiskColor.
    rewrite (proj2 (String.eqb_neq _ _) H1), (proj2 (String.eqb_neq _ _) H2),
      (proj2 (String.eqb_neq _ _) H3), (proj2 (String.eqb_neq _ _) H4).
    reflexivity.
Qed.

Context {Satrec : Type} {math : JsMath} {sgp4 : SatelliteJs Satrec}.

Lemma getRiskLevelOf_cases (d : Num) :
  getRiskLevelOf d = "critical" \/ getRiskLevelOf d = "high" \/
  getRiskLevelOf d = "moderate" \/ getRiskLevelOf d = "low" \/
  getRiskLevelOf d = "safe".
Proof.
  destruct d as [q|]; simpl; [|auto 10].
  destruct (getRiskLevel_cases q)
    as [[_ E]|[[_ E]|[[_ E]|[[_ E]|[_ E]]]]]; rewrite E; auto 10.
Qed.

Lemma countRisk_bands (l : list (Conjunction Satrec)) :
  Forall (fun c => risk c = getRiskLevelOf (distance c)) l ->
  (countRisk "critical" l + countRisk "high" l + countRisk "moderate" l +
   countRisk "low" l + countRisk "safe" l = length l)%nat.
Proof.
  unfold countRisk. induction 1 as [|c l Hc Hl IH]; [reflexivity|].
  rewrite !filter_cons. simpl.
  destruct (getRiskLevelOf_cases (distance c)) as [E|[E|[E|[E|E]]]];
    rewrite Hc, E;
    repeat (destruct (decide _) as [?|?]; try discriminate; try congruence);
    simpl; lia.
Qed.

Lemma calculateConjunctions_risk viewMode selected
    (filtered : list (Satellite Satrec)) (t : Z) :
  Forall (fun c => exists d : Q,
            distance c = Finite d /\ (d <= 25)%Q /\ risk c = getRiskLevel d)
         (calculateConjunctions viewMode selected filtered t).
Proof.
  unfold calculateConjunctions.
  destruct (String.eqb viewMode "selected"), selected as [sel|].
  1: { unfold findCloseApproaches. cbv zeta.
       destruct (candidates_spec sel (approachTimes t 24) (Finite 25)
                   (filter (fun s => isCandidate sel s = true) filtered) [])
         as (l & -> & _ & Hl & _).
       apply Forall_forall. intros c Hc%elem_of_sorted_slice.
       rewrite Forall_forall in Hl.
       destruct (Hl c Hc) as (cand & _ & _ & _ & Hle & Hr & _).
       destruct (distance c) as [d|]; [|destruct Hle].
       exists d. auto. }
  all: eapply Forall_impl; [apply findAllConjunctions_Reported|];
       intros c (d & ? & _ & ? & _ & ? & _); exists d; auto.
Qed.

(** X10. The panel lists at most 20 conjunctions, and its four counters
    (critical, high, moderate, low) add up to the total minus the listed
    conjunctions classified safe, which are exactly those at 25 km. *)
Theorem panel_counters viewMode selected
    (filtered : list (Satellite Satrec)) (t : Z) :
  let results := calculateConjunctions viewMode selected filtered t in
  (total (stats results) <= 20)%nat /\
  (critical (stats results) + high (stats results) +
   moderate (stats results) + low (stats results) +
   countRisk "safe" results = total (stats results))%nat /\
  Forall (fun c => exists d : Q,
            distance c = Finite d /\ (risk c = "safe" <-> (d == 25)%Q))
         results.
Proof.
  intros results. pose proof (calculateConjunctions_risk viewMode selected filtered t)
    as Hr. fold results in Hr.
  split; [|split].
  - simpl. subst results. unfold calculateConjunctions.
    change 20%nat with (Z.to_nat 20).
    destruct (String.eqb viewMode "selected"), selected as [sel|].
    1: { unfold findCloseApproaches. cbv zeta.
         apply (slice0_prefix 20 20); lia. }
    all: unfold findAllConjunctions; destruct (scanPairs _ _ _ _) as [chk l];
         apply (slice0_prefix 20 20 (sortByDistance l)); lia.
  - simpl. apply countRisk_bands.
    eapply Forall_impl; [exact Hr|]. by intros c (d & -> & _ & ->).
  - eapply Forall_impl; [exact Hr|]. intros c (d & Hd & Hle & ->).
    exists d. split; [exact Hd|].
    destruct (getRiskLevel_cases d)
      as [[Hb E]|[[Hb E]|[[Hb E]|[[Hb E]|[Hb E]]]]]; rewrite E;
      split; intros H; first [discriminate H|lra|reflexivity].
Qed.

End Panel.

(** ** The pass state machine: where the fields of a pass come from *)

Section PassSchedule.
Import PassService.
Context {Satrec : Type} {sgp4 : SatelliteJs Satrec}.
Variables (sat : Satellite Satrec) (obs : Observer) (start stop : Z).
Implicit Types (p q : Pass Satrec) (st : LoopState Satrec) (la : LookAngle).

Lemma OnGrid_step t : OnGrid start t -> OnGrid start (t + TIME_STEP).
Proof. intros (k & Hk & ->). exists (k + 1). split; [lia|]. unfold TIME_STEP. lia. Qed.

Lemma Gathered_mono t t' p :
  t <= t' -> Gathered sat obs start stop t p -> Gathered sat obs start stop t' p.
Proof.
  intros Ht (H1 & H2 & H3 & H4 & H5). repeat split; auto.
  eapply Forall_impl; [exact H5|]. simpl. intros pt (? & ? & ? & ? & ?).
  repeat split; auto. lia.
Qed.

Lemma Gathered_start t p :
  Gathered sat obs start stop t p ->
  OnGrid start (startTime p) /\ startTime p < stop /\ startTime p < t.
Proof.
  intros (_ & _ & (first & rest & E & Ht & _) & _ & H5).
  rewrite E in H5. apply Forall_cons in H5 as [(? & ? & ? & _) _].
  rewrite <- Ht. auto.
Qed.

Lemma ScheduleInv_mono t st :
  ScheduleInv sat obs start stop t st ->
  ScheduleInv sat obs start stop (t + TIME_STEP) st.
Proof.
  pose proof TIME_STEP_pos as Hpos.
  intros (Hg & Hf & Hs & He & Hc). split; [by apply OnGrid_step|].
  split; [exact Hf|]. split; [exact Hs|]. split.
  - eapply Forall_impl; [exact He|]. intros p (e & ? & ?). exists e. split; [done|lia].
  - intros Hin. destruct (Hc Hin) as (p & E & Hp & Hb).
    exists p. split; [exact E|]. split; [|exact Hb].
    eapply Gathered_mono; [|exact Hp]. lia.
Qed.

Lemma lookAngle_eta la :
  {| azimuth := azimuth la; elevation := elevation la; range := range la |} = la.
Proof. by destruct la. Qed.

Lemma Gathered_open t la :
  OnGrid start t -> t < stop ->
  lookAt sat obs t = Some la -> (MIN_ELEVATION <= elevation la)%Q ->
  Gathered sat obs start stop (t + TIME_STEP)
    (pushPoint (trackMax (openPass sat t la) t la) t la).
Proof.
  intros Hg Hlt Hla Hel. pose proof TIME_STEP_pos as Hpos. unfold trackMax.
  destruct (Qltb _ _) eqn:E; [apply Qltb_true in E; simpl in E; lra|].
  split; [reflexivity|]. split; [reflexivity|]. simpl. split; [|split].
  - by eexists _, _.
  - repeat constructor.
  - constructor; [|constructor]. simpl. unfold SampleOf. simpl.
    rewrite lookAngle_eta. repeat split; auto. lia.
Qed.

Lemma Gathered_push t p la :
  OnGrid start t -> t < stop ->
  lookAt sat obs t = Some la -> (MIN_ELEVATION <= elevation la)%Q ->
  Gathered sat obs start stop t p ->
  Gathered sat obs start stop (t + TIME_STEP) (pushPoint (trackMax p t la) t la).
Proof.
  intros Hg Hlt Hla Hel (H1 & H2 & (first & rest & E & Hf1 & Hf2) & H4 & H5).
  pose proof TIME_STEP_pos as Hpos.
  assert (Hfields :
    satellite (trackMax p t la) = satellite p /\
    startTime (trackMax p t la) = startTime p /\
    startAzimuth (trackMax p t la) = startAzimuth p /\
    startDirection (trackMax p t la) = startDirection p /\
    points (trackMax p t la) = points p).
  { unfold trackMax. by destruct (Qltb _ _). }
  destruct Hfields as (F1 & F2 & F3 & F4 & F5).
  split; [simpl; congruence|]. split; [simpl; congruence|]. simpl.
  rewrite F2, F3, F5. split; [|split].
  - rewrite E. eexists first, _. split; [reflexivity|done].
  - rewrite fmap_app. apply StronglySorted_app. split; [|split; [exact H4|]].
    + intros x1 x2 Hx1 Hx2. simpl in Hx2. apply list_elem_of_singleton in Hx2 as ->.
      apply list_elem_of_fmap in Hx1 as (pt & -> & Hpt).
      rewrite Forall_forall in H5. destruct (H5 pt Hpt) as (_ & _ & ? & _). lia.
    + repeat constructor.
  - apply Forall_app. split.
    + eapply Forall_impl; [exact H5|]. simpl. intros pt (? & ? & ? & ? & ?).
      repeat split; auto. lia.
    + constructor; [|constructor]. simpl. unfold SampleOf. simpl.
      rewrite lookAngle_eta. repeat split; auto. lia.
Qed.

Lemma Before_push q p t la :
  Before q p -> Before q (pushPoint (trackMax p t la) t la).
Proof.
  intros (e & He & Hlt). exists e. split; [exact He|].
  by rewrite (proj1 (pushPoint_trackMax_start p t la)).
Qed.

Lemma observe_ScheduleInv t la st :
  t < stop -> lookAt sat obs t = Some la ->
  ScheduleInv sat obs start stop t st ->
  ScheduleInv sat obs start stop (t + TIME_STEP) (observe sat t la st).
Proof.
  intros Hlt Hla Hinv. pose proof TIME_STEP_pos as Hpos.
  pose proof Hinv as (Hg & Hf & Hs & He & Hc). unfold observe.
  destruct (Qleb MIN_ELEVATION (elevation la)) eqn:Hel.
  - apply Qleb_true in Hel. destruct (inPass st) eqn:Hin.
    + destruct Hc as (p & -> & Hp & Hb); [done|].
      split; [by apply OnGrid_step|]. simpl.
      split; [exact Hf|]. split; [exact Hs|]. split.
      * eapply Forall_impl; [exact He|]. intros q (e & ? & ?).
        exists e. split; [done|lia].
      * intros _. eexists. split; [reflexivity|].
        split; [by apply Gathered_push|].
        eapply Forall_impl; [exact Hb|]. intros q. apply Before_push.
    + split; [by apply OnGrid_step|]. simpl.
      split; [exact Hf|]. split; [exact Hs|]. split.
      * eapply Forall_impl; [exact He|]. intros q (e & ? & ?).
        exists e. split; [done|lia].
      * intros _. eexists. split; [reflexivity|].
        split; [by apply Gathered_open|].
        eapply Forall_impl; [exact He|]. intros q (e & ? & ?).
        apply Before_push. exists e. split; [done|]. simpl. lia.
  - destruct (inPass st) eqn:Hin; [|by apply ScheduleInv_mono].
    destruct Hc as (p & -> & Hp & Hb); [done|].
    split; [by apply OnGrid_step|]. simpl.
    destruct (Qleb 60 _ && Qleb MIN_ELEVATION _).
    + split; [|split; [|split; [|done]]].
      * apply Forall_app. split; [exact Hf|]. constructor; [|constructor].
        exists t. simpl. split; [reflexivity|]. split; [exact Hg|].
        split; [exact Hp|reflexivity].
      * apply StronglySorted_app. split; [|split; [exact Hs|repeat constructor]].
        intros x1 x2 Hx1 Hx2. apply list_elem_of_singleton in Hx2 as ->.
        rewrite Forall_forall in Hb. exact (Hb x1 Hx1).
      * apply Forall_app. split.
        -- eapply Forall_impl; [exact He|]. intros q (e & ? & ?).
           exists e. split; [done|lia].
        -- constructor; [|constructor]. exists t. simpl. split; [reflexivity|lia].
    + split; [exact Hf|]. split; [exact Hs|]. split; [|done].
      eapply Forall_impl; [exact He|]. intros q (e & ? & ?).
      exists e. split; [done|lia].
Qed.

Lemma sweep_ScheduleInv fuel t st :
  ScheduleInv sat obs start stop t st ->
  ScheduleInv sat obs start stop
    (sweep fuel sat obs stop t st).1 (sweep fuel sat obs stop t st).2.
Proof.
  revert t st. induction fuel as [|fuel IH]; intros t st Hinv; simpl; [done|].
  destruct (Z.ltb_spec t stop) as [Hlt|_]; [|done]. apply IH.
  rewrite visit_lookAt. destruct (lookAt sat obs t) as [la|] eqn:Hla.
  - by apply observe_ScheduleInv.
  - by apply ScheduleInv_mono.
Qed.

Lemma finish_schedule t st :
  ScheduleInv sat obs start stop t st ->
  Forall (Finished sat obs start stop) (finish (Some t) st) /\
  StronglySorted Before (finish (Some t) st).
Proof.
  intros (Hg & Hf & Hs & He & Hc). unfold finish.
  destruct (inPass st); [|done].
  destruct Hc as (p & -> & Hp & Hb); [done|].
  destruct (Qleb 60 _); [|done]. split.
  - apply Forall_app. split; [exact Hf|]. constructor; [|constructor].
    exists t. simpl. split; [reflexivity|]. split; [exact Hg|].
    split; [exact Hp|reflexivity].
  - apply StronglySorted_app. split; [|split; [exact Hs|repeat constructor]].
    intros x1 x2 Hx1 Hx2. apply list_elem_of_singleton in Hx2 as ->.
    rewrite Forall_forall in Hb. destruct (Hb x1 Hx1) as (e & ? & ?).
    by exists e.
Qed.

End PassSchedule.

Section PassScheduleResults.
Import PassService.
Context {Satrec : Type} {sgp4 : SatelliteJs Satrec}.
Implicit Types (sat : Satellite Satrec) (obs : Observer).

Lemma calculatePasses_schedule sat obs (start d : Z) :
  Forall (Finished sat obs start (start + d)) (calculatePasses sat obs start d) /\
  StronglySorted Before (calculatePasses sat obs start d).
Proof.
  assert (H0 : ScheduleInv sat obs start (start + d) start initialState).
  { split; [exists 0; lia|]. simpl. repeat split; try constructor. done. }
  pose proof (sweep_ScheduleInv sat obs start (start + d) (iterations d) start
                initialState H0) as H.
  destruct (calculatePasses_cases sat obs start d)
    as [->|(t & st & E & [-> | ->])]; [split; constructor| |];
    rewrite E in H; simpl in H.
  - by apply (finish_schedule sat obs start (start + d)).
  - destruct H as (_ & Hf & Hs & _). by split.
Qed.

Lemma Finished_interval sat obs start stop (p : Pass Satrec) :
  Finished sat obs start stop p ->
  exists k : Z, 1 <= k /\ endTime p = Some (startTime p + k * TIME_STEP) /\
    duration p = Some (secondsBetween (startTime p) (startTime p + k * TIME_STEP)).
Proof.
  intros (e & He & (k2 & Hk2 & ->) & Hp & Hd).
  destruct (Gathered_start sat obs start stop _ p Hp) as ((k1 & Hk1 & E1) & _ & Hlt).
  exists (k2 - k1). rewrite He, Hd, E1 in *. unfold TIME_STEP in *.
  replace (start + k1 * (60 * 1000) + (k2 - k1) * (60 * 1000))
    with (start + k2 * (60 * 1000)) by lia.
  repeat split; auto. lia.
Qed.

(** X11. The passes of one satellite come back in chronological order and
    do not overlap: each one ends after it starts and before the next one
    starts. *)
Theorem calculatePasses_chronological sat obs (start d : Z) :
  StronglySorted
    (fun p q => exists e, endTime p = Some e /\ e < startTime q)
    (calculatePasses sat obs start d) /\
  Forall (fun p => exists e, endTime p = Some e /\ startTime p < e)
    (calculatePasses sat obs start d).
Proof.
  destruct (calculatePasses_schedule sat obs start d) as [Hf Hs].
  split; [exact Hs|].
  eapply Forall_impl; [exact Hf|]. intros p Hp.
  destruct (Finished_interval _ _ _ _ _ Hp) as (k & Hk & He & _).
  eexists. split; [exact He|]. unfold TIME_STEP. lia.
Qed.


(** X12. [getNextPass] answers [null] exactly when the next 24 hours hold
    no pass, and otherwise the pass that starts first. *)
Theorem getNextPass_earliest sat obs (now : Z) :
  (getNextPass sat obs now = None <->
   calculatePasses sat obs now PREDICTION_WINDOW = []) /\
  (forall p, getNextPass sat obs now = Some p ->
     p ∈ calculatePasses sat obs now PREDICTION_WINDOW /\
     forall q, q ∈ calculatePasses sat obs now PREDICTION_WINDOW ->
               startTime p <= startTime q).
Proof.
  unfold getNextPass.
  destruct (calculatePasses_schedule sat obs now PREDICTION_WINDOW)
    as [Hfin Hs].
  assert (Hf : Forall (fun p => exists e, endTime p = Some e /\ startTime p < e)
                 (calculatePasses sat obs now PREDICTION_WINDOW)).
  { eapply Forall_impl; [exact Hfin|]. intros p Hp.
    destruct (Finished_interval _ _ _ _ _ Hp) as (k & Hk & He & _).
    eexists. split; [exact He|]. unfold TIME_STEP. lia. }
  clear Hfin.
  destruct (calculatePasses sat obs now PREDICTION_WINDOW) as [|p0 l]; simpl.
  - split; [done|]. intros p H. discriminate H.
  - split; [split; intros H; discriminate H|].
    intros p [= <-]. split; [left|].
    intros q [->|Hq]%elem_of_cons; [lia|].
    apply StronglySorted_cons in Hs as [Hs _].
    apply Forall_cons in Hf as [(e0 & E0 & Hlt) _].
    rewrite Forall_forall in Hs. destruct (Hs q Hq) as (e & E & Hlt').
    rewrite E0 in E. injection E as <-. lia.
Qed.

(** X13. Every returned pass is a pass of the satellite asked about; its
    start time and azimuth are those of its first stored sample; the
    stored samples are in strictly increasing time order; and each one is
    what the look angles of the satellite were at one of the instants the
    loop sampled, at or above the minimum elevation. *)
Theorem calculatePasses_samples_source sat obs (start d : Z) :
  Forall (fun p =>
            satellite p = sat /\
            startDirection p = getCardinalDirection (startAzimuth p) /\
            (exists first rest,
               points p = first :: rest /\ Point.time first = startTime p /\
               Point.azimuth first = startAzimuth p) /\
            StronglySorted Z.lt (Point.time <$> points p) /\
            Forall (fun pt =>
                      Sampled start d (Point.time pt) /\
                      lookAt sat obs (Point.time pt) =
                        Some {| azimuth := Point.azimuth pt;
                                elevation := Point.elevation pt;
                                range := Point.range pt |} /\
                      (10 <= Point.elevation pt)%Q) (points p))
         (calculatePasses sat obs start d).
Proof.
  destruct (calculatePasses_schedule sat obs start d) as [Hf _].
  eapply Forall_impl; [exact Hf|].
  intros p (e & _ & _ & (H1 & H2 & H3 & H4 & H5) & _).
  repeat split; auto.
  eapply Forall_impl; [exact H5|]. simpl.
  intros pt ((k & Hk & Ek) & Hstop & _ & Hs & Hel).
  split; [by exists k|]. split; [exact Hs|exact Hel].
Qed.


End PassScheduleResults.

(** ** The pass state machine: the culmination *)

Section PassCulmination.
Import PassService.
Context {Satrec : Type} {sgp4 : SatelliteJs Satrec}.
Implicit Types (p : Pass Satrec) (st : LoopState Satrec) (la : LookAngle).
Implicit Types (sat : Satellite Satrec) (obs : Observer).

Lemma Culminates_open sat t la :
  Culminates (pushPoint (trackMax (openPass sat t la) t la) t la).
Proof.
  unfold trackMax.
  destruct (Qltb _ _) eqn:E; [apply Qltb_true in E; simpl in E; lra|].
  eexists [], _, []. simpl. split; [reflexivity|].
  repeat split; constructor.
Qed.

(** A strictly higher sample becomes the culmination; any other one
    leaves it where it was. *)
Lemma Culminates_push p t la :
  Culminates p -> Culminates (pushPoint (trackMax p t la) t la).
Proof.
  intros (earlier & pt & later & E & Ht & He & Ha & Hbefore & Hafter).
  unfold trackMax.
  destruct (Qltb _ _) eqn:Hlt;
    [apply Qltb_true in Hlt|apply Qltb_false in Hlt].
  - eexists (points p), _, []. simpl. split; [reflexivity|].
    split; [reflexivity|]. split; [reflexivity|]. split; [reflexivity|].
    split; [|constructor].
    rewrite E. apply Forall_app. split.
    + eapply Forall_impl; [exact Hbefore|]. simpl. intros; lra.
    + constructor; [rewrite He; exact Hlt|].
      eapply Forall_impl; [exact Hafter|]. simpl. intros; lra.
  - eexists earlier, pt, (later ++ [_]). simpl.
    split; [rewrite E, <- app_assoc; reflexivity|].
    split; [exact Ht|]. split; [exact He|]. split; [exact Ha|].
    split; [exact Hbefore|].
    apply Forall_app. split; [exact Hafter|].
    constructor; [exact Hlt|constructor].
Qed.

Lemma observe_CulminationInv sat t la st :
  CulminationInv st -> CulminationInv (observe sat t la st).
Proof.
  intros [Hps Hcur]. unfold observe.
  destruct (Qleb MIN_ELEVATION (elevation la)).
  - destruct (inPass st) eqn:Hin.
    + destruct Hcur as (p & -> & Hp); [done|].
      split; simpl; [exact Hps|]. intros _.
      eexists. split; [reflexivity|]. by apply Culminates_push.
    + simpl. split; simpl; [exact Hps|]. intros _.
      eexists. split; [reflexivity|]. apply Culminates_open.
  - destruct (inPass st) eqn:Hin; [|split; [exact Hps|by rewrite Hin]].
    destruct Hcur as (p & -> & Hp); [done|].
    split; simpl; [|done].
    destruct (_ && _); [|exact Hps].
    apply Forall_app. split; [exact Hps|]. constructor; [exact Hp|constructor].
Qed.

Lemma sweep_CulminationInv fuel sat obs stop t st :
  CulminationInv st -> CulminationInv (sweep fuel sat obs stop t st).2.
Proof.
  revert t st. induction fuel as [|fuel IH]; intros t st Hinv; simpl; [done|].
  destruct (t <? stop); [|done]. apply IH.
  rewrite visit_lookAt. destruct (lookAt sat obs t) as [la|]; [|done].
  by apply observe_CulminationInv.
Qed.

Lemma finish_culminates t st :
  CulminationInv st -> Forall Culminates (finish (Some t) st).
Proof.
  intros [Hps Hcur]. unfold finish.
  destruct (inPass st); [|done].
  destruct Hcur as (p & -> & Hp); [done|].
  destruct (Qleb 60 _); [|done].
  apply Forall_app. split; [done|]. constructor; [exact Hp|constructor].
Qed.

Lemma calculatePasses_culminates sat obs start d :
  Forall Culminates (calculatePasses sat obs start d).
Proof.
  assert (H0 : CulminationInv (initialState (Satrec := Satrec)))
    by (split; simpl; [constructor|done]).
  pose proof (sweep_CulminationInv (iterations d) sat obs (start + d) start
                initialState H0) as H.
  destruct (calculatePasses_cases sat obs start d)
    as [->|(t & st & E & [-> | ->])]; [constructor| |];
    rewrite E in H; simpl in H.
  - by apply finish_culminates.
  - apply H.
Qed.

(** C6, as the code has it. For every returned pass, closed inside the
    horizon or at its end, [startTime <= maxElevationTime < endTime].  The
    start time is the time of the first stored sample, and
    [maxElevationTime] the time of the first stored sample of greatest
    elevation; so [startTime = maxElevationTime] when no later sample is
    higher than the first one, and [startTime < maxElevationTime] when
    one is. *)
Theorem calculatePasses_time_order
    (sat : Satellite Satrec) (observerGd : Observer) (start d : Z) :
  Forall (fun p =>
            exists (e : Z) first rest,
              endTime p = Some e /\
              startTime p <= maxElevationTime p < e /\
              points p = first :: rest /\
              Point.time first = startTime p /\
              (exists earlier pt later,
                 points p = earlier ++ pt :: later /\
                 Point.time pt = maxElevationTime p /\
                 Point.elevation pt = maxElevation p /\
                 Forall (fun q => (Point.elevation q < maxElevation p)%Q)
                   earlier /\
                 Forall (fun q => (Point.elevation q <= maxElevation p)%Q)
                   later) /\
              (Forall (fun q => (Point.elevation q <= Point.elevation first)%Q)
                 rest ->
               maxElevationTime p = startTime p) /\
              (Exists (fun q => (Point.elevation first < Point.elevation q)%Q)
                 rest ->
               startTime p < maxElevationTime p))
         (calculatePasses sat observerGd start d).
Proof.
  pose proof (calculatePasses_Closed sat observerGd start d) as Hc.
  destruct (calculatePasses_schedule sat observerGd start d) as [Hf _].
  pose proof (calculatePasses_culminates sat observerGd start d) as Hm.
  rewrite Forall_forall in *. intros p Hp.
  destruct (Hc p Hp) as (e & He & (_ & _ & Htm) & _).
  destruct (Hf p Hp)
    as (e' & _ & _ & (_ & _ & (first & rest & E & Hfirst & _) & Hsorted & _) & _).
  destruct (Hm p Hp)
    as (earlier & pt & later & E' & Ht & Hel & _ & Hbefore & Hafter).
  exists e, first, rest.
  split; [exact He|]. split; [exact Htm|]. split; [exact E|].
  split; [exact Hfirst|].
  split; [by exists earlier, pt, later|].
  rewrite E in E', Hsorted.
  destruct earlier as [|x earlier]; simpl in E'; injection E' as E1 E2.
  - subst pt later. split; [intros _; congruence|].
    intros (q & Hq & Hlt)%Exists_exists.
    rewrite Forall_forall in Hafter. pose proof (Hafter q Hq) as Hle.
    rewrite <- Hel in Hle. lra.
  - subst x. apply Forall_cons in Hbefore as [Hx _].
    assert (Hin : pt ∈ rest).
    { rewrite E2. apply elem_of_app. right. left. }
    split.
    + intros Hall. rewrite Forall_forall in Hall.
      pose proof (Hall pt Hin) as Hle. rewrite Hel in Hle. lra.
    + intros _. simpl in Hsorted.
      apply StronglySorted_cons in Hsorted as [Hlt _].
      rewrite Forall_forall in Hlt.
      pose proof (Hlt (Point.time pt) (list_elem_of_fmap_2 _ _ _ Hin)) as H.
      rewrite <- Hfirst, <- Ht. exact H.
Qed.

End PassCulmination.

(** ** Formatting a duration *)

Section Durations.
Import PassService.

Lemma Qfloor_unique (q : Q) (a : Z) :
  (inject_Z a <= q)%Q -> (q < inject_Z (a + 1))%Q -> Qfloor q = a.
Proof.
  intros Hlo Hhi.
  assert (a <= Qfloor q).
  { rewrite <- (Qfloor_Z a). by apply Qfloor_resp_le. }
  assert (Qfloor q < a + 1).
  { rewrite Zlt_Qlt. pose proof (Qfloor_le q). lra. }
  lia.
Qed.

Lemma Qfloor_bounds (q : Q) :
  (inject_Z (Qfloor q) <= q)%Q /\ (q < inject_Z (Qfloor q) + 1)%Q.
Proof.
  split; [apply Qfloor_le|].
  pose proof (Qlt_floor q) as H. rewrite inject_Z_plus in H. exact H.
Qed.

(** The two numbers [formatDuration] prints, in terms of the whole
    seconds. *)
Lemma duration_parts (seconds : Q) :
  (0 <= seconds)%Q ->
  Qfloor (seconds / 60) = Qfloor seconds / 60 /\
  Qfloor (jsRemainder seconds 60) = Qfloor seconds mod 60.
Proof.
  intros H0. set (w := Qfloor seconds).
  pose proof (Z.mod_pos_bound w 60 ltac:(lia)) as Hm.
  pose proof (Z.div_mod w 60 ltac:(lia)) as Hdm.
  destruct (Qfloor_bounds seconds) as [Hw1 Hw2]. fold w in Hw1, Hw2.
  destruct (Qfloor_bounds (seconds / 60)) as [Hz1 Hz2].
  set (z := Qfloor (seconds / 60)) in *.
  assert (Hs : (seconds == 60 * (seconds / 60))%Q) by (field).
  assert (Hz : z = w / 60).
  { assert (60 * z <= w).
    { rewrite <- (Qfloor_Z (60 * z)). apply Qfloor_resp_le.
      rewrite inject_Z_mult. change (inject_Z 60) with 60%Q. lra. }
    assert (w < 60 * z + 60).
    { rewrite Zlt_Qlt, inject_Z_plus, inject_Z_mult.
      change (inject_Z 60) with 60%Q. lra. }
    apply (Z.div_unique w 60 z (w - 60 * z)); lia. }
  split; [exact Hz|].
  assert (Ht : toInteger (seconds / 60) = z).
  { unfold toInteger. destruct (Qlt_le_dec (seconds / 60) 0) as [Hneg|_];
      [|reflexivity].
    exfalso. assert (0 <= seconds / 60)%Q; [|lra].
    apply Qle_shift_div_l; lra. }
  unfold jsRemainder. rewrite Ht. apply Qfloor_unique.
  - assert (Hq : inject_Z (w mod 60) == inject_Z w - 60 * inject_Z z).
    { replace (w mod 60) with (w - 60 * z) by lia.
      unfold Zminus. rewrite inject_Z_plus, inject_Z_opp, inject_Z_mult.
      change (inject_Z 60) with 60%Q. ring. }
    rewrite Hq. lra.
  - assert (Hq : inject_Z (w mod 60 + 1) == inject_Z w + 1 - 60 * inject_Z z).
    { replace (w mod 60 + 1) with (w + 1 - 60 * z) by lia.
      unfold Zminus. rewrite !inject_Z_plus, inject_Z_opp, inject_Z_mult.
      change (inject_Z 60) with 60%Q. change (inject_Z 1) with 1%Q. ring. }
    rewrite Hq. lra.
Qed.

(** X14. For a duration of at least zero seconds and no more than
    [Number.MAX_SAFE_INTEGER] the text shows the whole seconds split into
    minutes and a remainder below 60, and leaves the minutes out when
    there are none. *)
Theorem formatDuration_whole_seconds (seconds : Q) :
  (0 <= seconds <= inject_Z MAX_SAFE_INTEGER)%Q ->
  let w := Qfloor seconds in
  0 <= w mod 60 < 60 /\ w = 60 * (w / 60) + w mod 60 /\
  formatDuration seconds =
    if 0 <? w / 60
    then pretty (w / 60) +:+ "m " +:+ pretty (w mod 60) +:+ "s"
    else pretty (w mod 60) +:+ "s".
Proof.
  intros [H0 _] w. destruct (duration_parts seconds H0) as [Hz Hr].
  fold w in Hz, Hr.
  split; [apply Z.mod_pos_bound; lia|].
  split; [apply Z.div_mod; lia|].
  unfold formatDuration. by rewrite Hz, Hr.
Qed.

End Durations.

Section PassDurations.
Import PassService.
Context {Satrec : Type} {sgp4 : SatelliteJs Satrec}.

(** X15. Every returned pass lasts a whole number [k >= 1] of minutes:
    its end time is [k] time steps after its start time, its duration is
    [60 k] seconds, and [formatDuration] shows it as "[k]m 0s". *)
Theorem calculatePasses_whole_minutes
    (sat : Satellite Satrec) (obs : Observer) (start d : Z) :
  Forall (fun p =>
            exists (k : Z) (secs : Q),
              1 <= k /\
              endTime p = Some (startTime p + k * TIME_STEP) /\
              duration p = Some secs /\ (secs == inject_Z (60 * k))%Q /\
              formatDuration secs = pretty k +:+ "m 0s")
         (calculatePasses sat obs start d).
Proof.
  destruct (calculatePasses_schedule sat obs start d) as [Hf _].
  eapply Forall_impl; [exact Hf|]. intros p Hp.
  destruct (Finished_interval _ _ _ _ _ Hp) as (k & Hk & He & Hd).
  exists k, (secondsBetween (startTime p) (startTime p + k * TIME_STEP)).
  split; [exact Hk|]. split; [exact He|]. split; [exact Hd|].
  assert (Hsecs : (secondsBetween (startTime p) (startTime p + k * TIME_STEP)
                   == inject_Z (60 * k))%Q).
  { unfold secondsBetween, TIME_STEP.
    replace (startTime p + k * (60 * 1000) - startTime p) with (60 * k * 1000) by lia.
    rewrite inject_Z_mult. change (inject_Z 1000) with 1000%Q. field. }
  split; [exact Hsecs|].
  assert (Hw : Qfloor (secondsBetween (startTime p) (startTime p + k * TIME_STEP))
               = 60 * k).
  { apply Qfloor_unique; rewrite Hsecs; [lra|].
    rewrite inject_Z_plus. change (inject_Z 1) with 1%Q. lra. }
  destruct (duration_parts
              (secondsBetween (startTime p) (startTime p + k * TIME_STEP)))
    as [Hz Hr].
  { rewrite Hsecs. change 0%Q with (inject_Z 0). rewrite <- Zle_Qle. lia. }
  unfold formatDuration.
  rewrite Hz, Hr, Hw, (Z.mul_comm 60 k), Z.div_mul, Z.mod_mul by lia.
  destruct (Z.ltb_spec 0 k); [reflexivity|lia].
Qed.

End PassDurations.

(** ** The pass state machine: what is detected *)

Section PassDetection.
Import PassService.
Context {Satrec : Type} {sgp4 : SatelliteJs Satrec}.
Variables (sat : Satellite Satrec) (obs : Observer) (stop : Z).
Implicit Types (p : Pass Satrec) (st : LoopState Satrec) (la : LookAngle).

Local Abbreviation run fuel t st :=
  (finish (Some (sweep fuel sat obs stop t st).1) (sweep fuel sat obs stop t st).2).

Lemma observe_grows t la st :
  exists l, passes (observe sat t la st) = passes st ++ l.
Proof.
  unfold observe. destruct (Qleb MIN_ELEVATION (elevation la)).
  - destruct (inPass st) eqn:Hin.
    + destruct (currentPass st); exists []; simpl; by rewrite app_nil_r.
    + exists []. simpl. by rewrite app_nil_r.
  - destruct (inPass st); [|exists []; by rewrite app_nil_r].
    destruct (currentPass st) as [p|]; [|exists []; by rewrite app_nil_r].
    simpl. destruct (_ && _); [by eexists|exists []; by rewrite app_nil_r].
Qed.

Lemma finish_grows t st : exists l, finish (Some t) st = passes st ++ l.
Proof.
  unfold finish. destruct (inPass st); [|exists []; by rewrite app_nil_r].
  destruct (currentPass st) as [p|]; [|exists []; by rewrite app_nil_r].
  destruct (Qleb 60 _); [by eexists|exists []; by rewrite app_nil_r].
Qed.

Lemma run_grows fuel t st : exists more, run fuel t st = passes st ++ more.
Proof.
  revert t st. induction fuel as [|fuel IH]; intros t st.
  - apply finish_grows.
  - rewrite run_step. destruct (t <? stop); [|apply finish_grows].
    destruct (IH (t + TIME_STEP) (visit sat obs t st)) as (more & ->).
    rewrite visit_lookAt. destruct (lookAt sat obs t) as [la|]; [|by eexists].
    destruct (observe_grows t la st) as (l & ->).
    exists (l ++ more). by rewrite app_assoc.
Qed.

Lemma pushPoint_trackMax_fields p t la :
  startTime (pushPoint (trackMax p t la) t la) = startTime p /\
  startAzimuth (pushPoint (trackMax p t la) t la) = startAzimuth p /\
  startDirection (pushPoint (trackMax p t la) t la) = startDirection p.
Proof. unfold trackMax. by destruct (Qltb _ _). Qed.

(** Once a pass is open it is returned, whatever happens next. *)
Lemma run_commits fuel t st p :
  stop <= t + Z.of_nat fuel * TIME_STEP ->
  inPass st = true -> currentPass st = Some p ->
  (MIN_ELEVATION <= maxElevation p)%Q ->
  startTime p + TIME_STEP <= t ->
  exists p' more,
    run fuel t st = passes st ++ p' :: more /\
    startTime p' = startTime p /\ startAzimuth p' = startAzimuth p /\
    startDirection p' = startDirection p.
Proof.
  revert t st p.
  induction fuel as [|fuel IH]; intros t st p Hfuel Hin Hp Hmax Hs.
  - simpl. rewrite (finish_in_pass _ _ p Hin Hp).
    rewrite (proj2 (Qleb_true _ _) (secondsBetween_ge _ _ Hs)).
    by exists (closeAtHorizon p t), [].
  - rewrite run_step. destruct (Z.ltb_spec t stop) as [Hlt|Hge].
    + assert (F1 : stop <= t + TIME_STEP + Z.of_nat fuel * TIME_STEP)
        by (unfold TIME_STEP in *; lia).
      rewrite visit_lookAt. destruct (lookAt sat obs t) as [la|].
      * destruct (Qlt_le_dec (elevation la) MIN_ELEVATION) as [Hel|Hel].
        -- rewrite (observe_below_close sat _ _ _ p Hel Hin Hp Hmax).
           rewrite (proj2 (Qleb_true _ _) (secondsBetween_ge _ _ Hs)).
           match goal with
           | |- context [run fuel ?t' ?st'] =>
               destruct (run_grows fuel t' st') as (more & ->)
           end.
           simpl. exists (closePass p t la), more.
           rewrite <- app_assoc. by repeat split.
        -- rewrite (observe_above_continue sat _ _ _ p Hel Hin Hp).
           set (q := pushPoint (trackMax p t la) t la).
           assert (Q1 : startTime q = startTime p)
             by apply (pushPoint_trackMax_fields p t la).
           assert (Q2 : startAzimuth q = startAzimuth p)
             by apply (pushPoint_trackMax_fields p t la).
           assert (Q3 : startDirection q = startDirection p)
             by apply (pushPoint_trackMax_fields p t la).
           assert (F2 : startTime q + TIME_STEP <= t + TIME_STEP)
             by (unfold TIME_STEP in *; lia).
           destruct (IH (t + TIME_STEP)
                       {| passes := passes st; inPass := true;
                          currentPass := Some q |}
                       q F1 eq_refl eq_refl (trackMax_max p t la Hmax) F2)
             as (p' & more & E & H1 & H2 & H3).
           exists p', more. simpl in E. rewrite E. repeat split; congruence.
      * apply (IH (t + TIME_STEP) st p); auto. unfold TIME_STEP in *. lia.
    + rewrite (finish_in_pass _ _ p Hin Hp).
      rewrite (proj2 (Qleb_true _ _) (secondsBetween_ge _ _ Hs)).
      by exists (closeAtHorizon p t), [].
Qed.

(** A sample at or above the threshold taken while no pass is open opens
    one that is returned. *)
Lemma run_opens fuel t st la :
  stop <= t + Z.of_nat fuel * TIME_STEP -> t < stop ->
  inPass st = false ->
  lookAt sat obs t = Some la -> (MIN_ELEVATION <= elevation la)%Q ->
  exists p' more,
    run fuel t st = passes st ++ p' :: more /\
    startTime p' = t /\ startAzimuth p' = azimuth la /\
    startDirection p' = getCardinalDirection (azimuth la).
Proof.
  intros Hfuel Hlt Hin Hla Hel.
  destruct fuel as [|fuel]; [simpl in Hfuel; lia|].
  rewrite run_step. destruct (Z.ltb_spec t stop) as [_|?]; [|lia].
  rewrite visit_lookAt, Hla, (observe_above_open sat _ _ _ Hel Hin).
  set (q := pushPoint (trackMax (openPass sat t la) t la) t la).
  assert (Q1 : startTime q = t)
    by apply (pushPoint_trackMax_fields (openPass sat t la) t la).
  assert (Q2 : startAzimuth q = azimuth la)
    by apply (pushPoint_trackMax_fields (openPass sat t la) t la).
  assert (Q3 : startDirection q = getCardinalDirection (azimuth la))
    by apply (pushPoint_trackMax_fields (openPass sat t la) t la).
  assert (F1 : stop <= t + TIME_STEP + Z.of_nat fuel * TIME_STEP)
    by (unfold TIME_STEP in *; lia).
  assert (F2 : startTime q + TIME_STEP <= t + TIME_STEP) by lia.
  destruct (run_commits fuel (t + TIME_STEP)
              {| passes := passes st; inPass := true; currentPass := Some q |}
              q F1 eq_refl eq_refl
              (trackMax_max (openPass sat t la) t la Hel) F2)
    as (p' & more & E & H1 & H2 & H3).
  exists p', more. simpl in E. rewrite E. repeat split; congruence.
Qed.

Lemma run_detects fuel t st (k : Z) la :
  stop <= t + Z.of_nat fuel * TIME_STEP ->
  inPass st = false ->
  0 <= k -> t + k * TIME_STEP < stop ->
  lookAt sat obs (t + k * TIME_STEP) = Some la ->
  (MIN_ELEVATION <= elevation la)%Q ->
  exists p' more, run fuel t st = passes st ++ p' :: more.
Proof.
  revert t st k.
  induction fuel as [|fuel IH]; intros t st k Hfuel Hin Hk Hlt Hla Hel.
  - unfold TIME_STEP in *. simpl in Hfuel. lia.
  - assert (Ht : t < stop) by (unfold TIME_STEP in *; lia).
    destruct (lookAt sat obs t) as [la0|] eqn:Hla0.
    + destruct (Qlt_le_dec (elevation la0) MIN_ELEVATION) as [Hlow|Hhigh].
      * rewrite run_step. destruct (Z.ltb_spec t stop) as [_|?]; [|lia].
        rewrite visit_lookAt, Hla0, (observe_below_idle sat _ _ _ Hlow Hin).
        assert (k <> 0).
        { intros ->. rewrite Z.add_0_r in Hla. rewrite Hla0 in Hla.
          injection Hla as ->. lra. }
        apply (IH (t + TIME_STEP) st (k - 1)); auto; try lia;
          unfold TIME_STEP in *; try lia.
        replace (t + 60 * 1000 + (k - 1) * (60 * 1000))
          with (t + k * (60 * 1000)) by lia. exact Hla.
      * destruct (run_opens (Datatypes.S fuel) t st la0 Hfuel Ht Hin Hla0 Hhigh)
          as (p' & more & E & _). by exists p', more.
    + rewrite run_step. destruct (Z.ltb_spec t stop) as [_|?]; [|lia].
      rewrite visit_lookAt, Hla0.
      assert (k <> 0).
      { intros ->. rewrite Z.add_0_r in Hla. rewrite Hla0 in Hla. discriminate Hla. }
      apply (IH (t + TIME_STEP) st (k - 1)); auto; try lia;
        unfold TIME_STEP in *; try lia.
      replace (t + 60 * 1000 + (k - 1) * (60 * 1000))
        with (t + k * (60 * 1000)) by lia. exact Hla.
Qed.

End PassDetection.

Section PassDetectionResults.
Import PassService.
Context {Satrec : Type} {sgp4 : SatelliteJs Satrec}.
Implicit Types (sat : Satellite Satrec) (obs : Observer).

Lemma isCurrentlyVisible_lookAt sat obs (now : Z) (v : Visible.t) :
  isCurrentlyVisible sat obs now = Some v <->
  exists la,
    lookAt sat obs now = Some la /\ (MIN_ELEVATION <= elevation la)%Q /\
    v = {| Visible.azimuth := azimuth la; Visible.elevation := elevation la;
           Visible.range := range la;
           Visible.direction := getCardinalDirection (azimuth la) |}.
Proof.
  unfold isCurrentlyVisible, lookAt.
  destruct (propagate (satrec sat) now) as [|[position|]].
  - split; [discriminate|]. by intros (la & ? & _).
  - cbv zeta. destruct (Qleb MIN_ELEVATION _) eqn:E.
    + apply Qleb_true in E. split.
      * intros [= <-]. by eexists.
      * intros (la & [= <-] & _ & ->). reflexivity.
    + apply Qleb_false in E. split; [discriminate|].
      intros (la & [= <-] & Hel & _). lra.
  - split; [discriminate|]. by intros (la & ? & _).
Qed.

(** X16. For search windows inside the range of dates: a satellite
    that [isCurrentlyVisible] reports at some instant has, in any search
    starting at that instant over a positive window, a first pass that
    starts at that instant with the reported azimuth and direction; so
    [getNextPass] at that instant returns it. *)
Theorem visible_now_starts_pass sat obs (now d : Z) (v : Visible.t) :
  0 < d -> InRange now d -> InRange now PREDICTION_WINDOW ->
  isCurrentlyVisible sat obs now = Some v ->
  (exists p more,
     calculatePasses sat obs now d = p :: more /\
     startTime p = now /\ startAzimuth p = Visible.azimuth v /\
     startDirection p = Visible.direction v) /\
  (exists p, getNextPass sat obs now = Some p /\ startTime p = now).
Proof.
  intros Hd Hrange Hday (la & Hla & Hel & ->)%isCurrentlyVisible_lookAt.
  assert (Hgen : forall d', 0 < d' -> InRange now d' -> exists p more,
            calculatePasses sat obs now d' = p :: more /\
            startTime p = now /\ startAzimuth p = azimuth la /\
            startDirection p = getCardinalDirection (azimuth la)).
  { intros d' Hd' Hr'. rewrite calculatePasses_run by exact Hr'.
    assert (Hfuel : now + d' <= now + Z.of_nat (iterations d') * TIME_STEP)
      by (pose proof (iterations_enough d'); lia).
    destruct (run_opens sat obs (now + d') (iterations d') now initialState la
                Hfuel ltac:(lia) eq_refl Hla Hel)
      as (p & more & E & H).
    exists p, more. split; [exact E|exact H]. }
  split; [by apply Hgen|].
  destruct (Hgen PREDICTION_WINDOW) as (p & more & E & H & _);
    [reflexivity|exact Hday|].
  exists p. unfold getNextPass. rewrite E. by split.
Qed.

(** X17. For a search window inside the range of dates,
    [calculatePasses] returns at least one pass exactly when, at some
    instant it samples, propagation succeeds and the satellite is at or
    above the minimum elevation; outside that range a returned pass still
    comes from such an instant. *)
Theorem calculatePasses_detects sat obs (start d : Z) :
  (calculatePasses sat obs start d <> [] ->
   exists t la,
     Sampled start d t /\ lookAt sat obs t = Some la /\
     (10 <= elevation la)%Q) /\
  (InRange start d ->
   (exists t la,
      Sampled start d t /\ lookAt sat obs t = Some la /\
      (10 <= elevation la)%Q) ->
   calculatePasses sat obs start d <> []).
Proof.
  split.
  - intros Hne.
    destruct (calculatePasses_schedule sat obs start d) as [Hsrc _].
    destruct (calculatePasses sat obs start d) as [|p l]; [done|].
    apply Forall_cons in Hsrc
      as [(e & _ & _ & (_ & _ & (first & rest & E & _) & _ & Hpts) & _) _].
    rewrite E in Hpts.
    apply Forall_cons in Hpts as [((k & Hk & Ek) & Hstop & _ & Hla & Hel) _].
    eexists _, _. split; [by exists k|]. split; [exact Hla|exact Hel].
  - intros Hrange (t & la & (k & Hk & -> & Hlt) & Hla & Hel).
    rewrite calculatePasses_run by exact Hrange.
    assert (Hfuel : start + d <= start + Z.of_nat (iterations d) * TIME_STEP)
      by (pose proof (iterations_enough d); lia).
    destruct (run_detects sat obs (start + d) (iterations d) start initialState
                k la Hfuel eq_refl Hk Hlt Hla Hel) as (p & more & ->).
    discriminate.
Qed.

End PassDetectionResults.

(** ** The merged schedule of several satellites *)

Section Upcoming.
Import PassService.
Context {Satrec : Type} {sgp4 : SatelliteJs Satrec}.
Implicit Types (p q : Pass Satrec) (l : list (Pass Satrec)).

Lemma insertByStartTime_Permutation p l : insertByStartTime p l ≡ₚ p :: l.
Proof.
  induction l as [|q l IH]; simpl; [reflexivity|].
  destruct (startTime p <=? startTime q); [reflexivity|].
  rewrite IH. apply Permutation_swap.
Qed.

Lemma sortByStartTime_Permutation l : sortByStartTime l ≡ₚ l.
Proof.
  induction l as [|p l IH]; [reflexivity|].
  unfold sortByStartTime in *. simpl.
  rewrite insertByStartTime_Permutation, IH. reflexivity.
Qed.

Lemma insertByStartTime_sorted p l :
  StronglySorted startsFirst l -> StronglySorted startsFirst (insertByStartTime p l).
Proof.
  induction l as [|q l IH]; simpl; intros Hl.
  - repeat constructor.
  - apply StronglySorted_cons in Hl as [Hq Hl].
    destruct (Z.leb_spec (startTime p) (startTime q)) as [E|E].
    + rewrite StronglySorted_cons. split.
      * constructor; [exact E|].
        eapply Forall_impl; [exact Hq|]. unfold startsFirst. intros; lia.
      * by rewrite StronglySorted_cons.
    + rewrite StronglySorted_cons. split; [|auto].
      rewrite insertByStartTime_Permutation. constructor; [|exact Hq].
      unfold startsFirst. lia.
Qed.

Lemma sortByStartTime_sorted l : StronglySorted startsFirst (sortByStartTime l).
Proof.
  induction l as [|p l IH]; [constructor|].
  apply insertByStartTime_sorted, IH.
Qed.

(** X18. The merged schedule is in ascending order of start time; each
    entry is a pass computed for one of the given satellites over the
    24 hours after that satellite's clock reading; a limit [>= 0] bounds
    its length; and when fewer entries than the limit come back, no pass
    of any of the satellites was left out. *)
Theorem getUpcomingPasses_schedule
    (satellites : list (Satellite Satrec)) (obs : Observer)
    (clock : nat -> Z) (limit : Z) :
  let result := getUpcomingPasses satellites obs clock limit in
  StronglySorted startsFirst result /\
  Forall (fun p =>
            exists (i : nat) sat,
              satellites !! i = Some sat /\
              p ∈ calculatePasses sat obs (clock i) PREDICTION_WINDOW) result /\
  (0 <= limit -> (length result <= Z.to_nat limit)%nat) /\
  ((length result < Z.to_nat limit)%nat ->
   forall (i : nat) sat p,
     satellites !! i = Some sat ->
     p ∈ calculatePasses sat obs (clock i) PREDICTION_WINDOW -> p ∈ result).
Proof.
  intros result. subst result. unfold getUpcomingPasses.
  set (allPasses := mjoin _).
  assert (Hall : forall p, p ∈ allPasses <->
            exists (i : nat) sat, satellites !! i = Some sat /\
              p ∈ calculatePasses sat obs (clock i) PREDICTION_WINDOW).
  { intros p. unfold allPasses. rewrite list_elem_of_join. split.
    - intros (l & Hp & Hl). apply elem_of_lookup_imap in Hl as (i & sat & -> & Hi).
      by exists i, sat.
    - intros (i & sat & Hi & Hp). eexists. split; [exact Hp|].
      apply elem_of_lookup_imap. by exists i, sat. }
  split; [apply slice0_sorted, sortByStartTime_sorted|]. split; [|split].
  - apply Forall_forall. intros p Hp. apply Hall.
    rewrite <- (sortByStartTime_Permutation allPasses).
    eapply elem_of_sublist; [exact Hp|apply slice0_sublist].
  - intros Hl. apply (slice0_prefix limit limit). lia.
  - intros Hlen i sat p Hi Hp.
    assert (Hin : p ∈ sortByStartTime allPasses).
    { rewrite sortByStartTime_Permutation. apply Hall. by exists i, sat. }
    revert Hlen Hin. unfold CollisionService.slice0.
    destruct (Z.ltb_spec limit 0) as [Hneg|Hpos].
    + rewrite (Z2Nat.nonpos limit) by lia. lia.
    + rewrite length_take. intros Hlen Hin.
      rewrite take_ge by lia. exact Hin.
Qed.

End Upcoming.

(** ** Compass points and pass quality *)

Section CompassAndQuality.
Import PassService.

(** X19. For an azimuth of at most 10^15 degrees either way, the
    direction is the compass point nearest to the azimuth: an azimuth
    within 11.25 degrees of [22.5 k] with [k >= 0] gives entry [k mod 16]
    of the table, so 348.75 degrees and above wrap to "N"; a negative
    azimuth nearest to [22.5 k] with [k < 0] not a multiple of 16 gives
    [undefined]. *)
Theorem getCardinalDirection_nearest (azimuth : Q) (k : Z) :
  (- (1000000000000000) <= azimuth <= 1000000000000000)%Q ->
  (inject_Z k * (45 # 2) - (45 # 4) <= azimuth)%Q ->
  (azimuth < inject_Z k * (45 # 2) + (45 # 4))%Q ->
  (0 <= k -> getCardinalDirection azimuth = directions !! Z.to_nat (k mod 16)) /\
  (k < 0 -> k mod 16 <> 0 -> getCardinalDirection azimuth = None).
Proof.
  intros _ Hlo Hhi.
  assert (Hr : Math_round (azimuth / (45 # 2)) = k).
  { assert (k <= Math_round (azimuth / (45 # 2)) <= k); [|lia].
    apply Math_round_bounds; unfold Qdiv;
      change (/ (45 # 2))%Q with (2 # 45)%Q; lra. }
  unfold getCardinalDirection, directionIndex. rewrite Hr. split.
  - intros Hk. rewrite Z.rem_mod_nonneg by lia.
    pose proof (Z.mod_pos_bound k 16 ltac:(lia)).
    destruct (Z.ltb_spec (k mod 16) 0); [lia|reflexivity].
  - intros Hk Hm.
    pose proof (Z.rem_bound_pos_neg k 16 ltac:(lia) ltac:(lia)) as Hb.
    assert (Z.rem k 16 <> 0).
    { intros E. apply Hm. pose proof (Z.quot_rem' k 16) as Hq.
      rewrite E, Z.add_0_r in Hq. rewrite Hq, Z.mul_comm. apply Z.mod_mul. lia. }
    destruct (Z.ltb_spec (Z.rem k 16) 0); [reflexivity|lia].
Qed.

(** X20. The quality label is excellent exactly from 70 degrees of
    maximum elevation, good from 45 up to 70, fair from 25 up to 45 and
    poor below 25. *)
Theorem getPassQuality_bands (maxElevation : Q) :
  (getPassQuality maxElevation = "excellent" <-> (70 <= maxElevation)%Q) /\
  (getPassQuality maxElevation = "good" <-> (45 <= maxElevation < 70)%Q) /\
  (getPassQuality maxElevation = "fair" <-> (25 <= maxElevation < 45)%Q) /\
  (getPassQuality maxElevation = "poor" <-> (maxElevation < 25)%Q).
Proof.
  unfold getPassQuality. qcases; repeat apply conj; intros H;
    first [discriminate H | lra | reflexivity].
Qed.

End CompassAndQuality.

(** ** The instants the forward scan samples *)

Section ApproachGrid.
Import CollisionService.

Lemma sampleTimes_sound (n : nat) (t stop step t' : Z) :
  0 < step -> t' ∈ sampleTimes n t stop step ->
  exists k, 0 <= k /\ t' = t + k * step /\ t' <= stop.
Proof.
  intros Hstep. revert t. induction n as [|n IH]; intros t; simpl;
    [by intros ?%elem_of_nil|].
  destruct (Z.leb_spec t stop) as [Hle|_]; [|by intros ?%elem_of_nil].
  intros [->|Hin]%elem_of_cons.
  - exists 0. lia.
  - destruct (IH _ Hin) as (k & Hk & -> & Hle').
    exists (k + 1). lia.
Qed.

Lemma newDate_proper (q q' : Q) : (q == q')%Q -> newDate q = newDate q'.
Proof.
  intros E. unfold newDate.
  assert (Hb : Qleb (Qabs q) (inject_Z MAX_TIME) =
               Qleb (Qabs q') (inject_Z MAX_TIME)).
  { destruct (Qleb (Qabs q') _) eqn:E';
      [apply Qleb_true in E'; apply Qleb_true
      |apply Qleb_false in E'; apply Qleb_false]; by rewrite E. }
  rewrite Hb. clear Hb.
  destruct (Qleb (Qabs q') (inject_Z MAX_TIME)); [|reflexivity]. f_equal.
  unfold toInteger.
  destruct (Qlt_le_dec q 0), (Qlt_le_dec q' 0); try lra.
  - by rewrite E.
  - by rewrite E.
Qed.

Lemma approachEnd_hours (startTime h : Z) :
  (inject_Z startTime + inject_Z h * 60 * 60 * 1000
   == inject_Z (startTime + h * 3600000))%Q.
Proof.
  rewrite inject_Z_plus, inject_Z_mult.
  change (inject_Z 3600000) with 3600000%Q. ring.
Qed.

(** X21. For a look-ahead of a whole number of hours from a valid start
    date: when the end of the look-ahead is a valid date the forward scan
    samples exactly the instants five minutes apart from the start time up
    to and including the end of the look-ahead; when it is past the last
    valid date the scan samples nothing. *)
Theorem approachTimes_grid (startTime h t : Z) :
  - MAX_TIME <= startTime <= MAX_TIME ->
  (- MAX_TIME <= startTime + h * 3600000 <= MAX_TIME ->
   (t ∈ approachTimes startTime (inject_Z h) <->
    exists k : Z,
      0 <= k /\ t = startTime + k * 300000 /\
      t <= startTime + h * 3600000)) /\
  (MAX_TIME < startTime + h * 3600000 ->
   approachTimes startTime (inject_Z h) = []).
Proof.
  intros Hstart. split.
  - intros Hstop.
    assert (E : newDate (inject_Z startTime + inject_Z h * 60 * 60 * 1000)
                = Some (startTime + h * 3600000)).
    { rewrite (newDate_proper _ _ (approachEnd_hours startTime h)).
      by apply newDate_valid. }
    split.
    + unfold approachTimes, stepMinutes.
      rewrite (newDate_valid _ Hstart), E.
      change (5 * 60 * 1000) with 300000.
      apply sampleTimes_sound. lia.
    + intros (k & Hk & -> & Hle).
      by apply (approachTimes_complete startTime (inject_Z h)
                  (startTime + h * 3600000) k).
  - intros Hpast. unfold approachTimes.
    rewrite (newDate_proper _ _ (approachEnd_hours startTime h)).
    rewrite (newDate_invalid (startTime + h * 3600000)) by lia.
    by destruct (newDate (inject_Z startTime)).
Qed.

End ApproachGrid.

(* ===================================================================== *)
(** * Part III: worked instances                                          *)
(* ===================================================================== *)

Section CollisionInstances.
Import CollisionService Fixtures.

Lemma getRiskLevel_bands_witness :
  (0 <= 3)%Q /\ (getRiskLevel 3 = "high" <-> (1 <= 3 < 5)%Q).
Proof.
  split; [lra|].
  destruct (getRiskLevel_bands 3) as (_ & H & _); [lra|exact H].
Defined.

Lemma calculateCollisionProbability_band_monotone_witness :
  (0 <= 2)%Q /\
  (0 < calculateCollisionProbability 2 < 1)%Q /\
  (calculateCollisionProbability 4 <= calculateCollisionProbability 2)%Q.
Proof.
  split; [lra|].
  destruct (calculateCollisionProbability_band_monotone 2) as (H & _ & Hm & _); [lra|].
  split; [exact H|]. apply Hm; [lra|reflexivity].
Defined.

Lemma satA_satB_distinct : NoDup (noradId <$> [satA; satB]).
Proof.
  apply NoDup_cons. split; [|apply NoDup_singleton].
  intros H%list_elem_of_singleton. discriminate H.
Defined.

Lemma findAllConjunctions_unique_pairs_witness :
  NoDup (noradId <$> [satA; satB]) /\
  NoDup (unordered <$>
           (objectIds <$>
              findAllConjunctions (math := exactSqrt) (sgp4 := tableJs)
                [satA; satB] 0 (Finite 25) 50)).
Proof.
  split; [exact satA_satB_distinct|].
  apply (findAllConjunctions_unique_pairs (math := exactSqrt) (sgp4 := tableJs)
           [satA; satB] 0 (Finite 25) 50 satA_satB_distinct).
Defined.

(** C7 at the boundary. With the default options (threshold 25 km) two
    objects exactly 25 km apart pass the test [distance <= threshold] and
    are returned with the risk level safe, which the band table gives to
    every distance that is not below 25 km. *)
Theorem default_search_reports_safe_pair :
  Exists (fun c => risk c = "safe")
    (findAllConjunctions_default (math := exactSqrt) (sgp4 := tableJs)
       [satA; satB] 0).
Proof.
  assert (E : risk <$>
                findAllConjunctions_default (math := exactSqrt) (sgp4 := tableJs)
                  [satA; satB] 0 = ["safe"])
    by (vm_compute; reflexivity).
  destruct (findAllConjunctions_default _ _) as [|c l]; [discriminate E|].
  apply Exists_cons_hd. by injection E.
Qed.

(** A candidate whose propagation fails until minute 10 is reported at
    the first instant it could be measured; one whose propagation always
    throws is left out; the pair that never fails is reported as usual. *)
Example close_approaches_with_failures :
  (fun c => (noradId (satellite2 c), time c, risk c)) <$>
    findCloseApproaches (math := exactSqrt) (sgp4 := tableJs) satA
      [satA; satB; mkSat 103 410 (lateOrbit 600000);
       mkSat 104 410 (fun _ => PropThrows)] 0 1 (Finite 25) 10
  = [(103, Some 600000, "high"); (102, Some 0, "safe")].
Proof. vm_compute. reflexivity. Qed.

(** C4 without a finite threshold. With the threshold [Infinity] the test
    [minDistance <= threshold] holds for the initial [minDistance], so a
    pair whose propagation throws at every sampled instant is reported,
    with the distance [Infinity] and the time [null]. *)
Lemma all_failed_pair_reported :
  hasSample (math := exactSqrt) (sgp4 := tableJs) satA (approachTimes 0 1)
    (mkSat 104 410 (fun _ => PropThrows)) = false /\
  (fun c => (noradId (satellite2 c), distance c, time c, risk c)) <$>
    findCloseApproaches (math := exactSqrt) (sgp4 := tableJs) satA
      [satA; mkSat 104 410 (fun _ => PropThrows)] 0 1 Infinity 10
  = [(104, Infinity, None, "safe")].
Proof. split; vm_compute; reflexivity. Qed.

(** C8 near distance 0. The estimate is the same 0.99 at 0 km and at
    0.01 km, both in the critical band: it does not grow as the distance
    shrinks there, and 0.99 is the largest value it takes. *)
Lemma probability_capped_near_zero :
  (0 < 1 # 100)%Q /\
  getRiskLevel 0 = "critical" /\ getRiskLevel (1 # 100) = "critical" /\
  (calculateCollisionProbability 0 == 99 # 100)%Q /\
  (calculateCollisionProbability (1 # 100) == 99 # 100)%Q /\
  ~ (calculateCollisionProbability (1 # 100) < calculateCollisionProbability 0)%Q.
Proof.
  split; [reflexivity|]. split; [reflexivity|]. split; [reflexivity|].
  split; [reflexivity|]. split; [reflexivity|].
  intros H. vm_compute in H. discriminate H.
Qed.

End CollisionInstances.

Section PassInstances.
Import PassService Fixtures.

Lemma getCardinalDirection_in_bounds_witness :
  (0 <= 100 < 360)%Q /\
  exists s : string, getCardinalDirection 100 = Some s /\ s ∈ directions.
Proof.
  split; [lra|].
  destruct (getCardinalDirection_in_bounds 100) as [_ H]; [lra|exact H].
Defined.

Lemma windowOrbit_visible (id a len : Z) :
  VisibleExactly (sgp4 := tableJs) (mkSat id 400 (windowOrbit a len)) site
    a (a + len).
Proof.
  intros t. unfold lookAt. simpl. unfold windowOrbit.
  destruct ((a <=? t) && (t <? a + len)) eqn:E; simpl;
    (eexists; split; [reflexivity|]); simpl; split; intros H.
  - apply andb_true_iff in E. lia.
  - apply Qleb_true. vm_compute. reflexivity.
  - apply Qleb_true in H. vm_compute in H. discriminate H.
  - apply andb_false_iff in E. lia.
Defined.

(** A 30-second window around the sample taken at minute 1. *)
Lemma short_window_still_reported :
  VisibleExactly (sgp4 := tableJs) (mkSat 7 400 (windowOrbit 45000 30000)) site
    45000 (45000 + 30000) /\
  length (calculatePasses (sgp4 := tableJs)
            (mkSat 7 400 (windowOrbit 45000 30000)) site 0 600000) = 1%nat.
Proof. split; [apply windowOrbit_visible|]. vm_compute. reflexivity. Qed.

Lemma window_in_range (start d : Z) :
  - 8000000000000000 <= start <= 8000000000000000 ->
  0 <= d <= 100000000000 -> InRange start d.
Proof. unfold InRange, MAX_TIME, TIME_STEP. lia. Defined.

Lemma calculatePasses_duration_filter_witness :
  InRange 0 600000 /\
  VisibleExactly (sgp4 := tableJs) (mkSat 7 400 (windowOrbit 100000 90000)) site
    100000 (100000 + 90000) /\
  exists p,
    calculatePasses (sgp4 := tableJs)
      (mkSat 7 400 (windowOrbit 100000 90000)) site 0 600000 = [p].
Proof.
  assert (Hr : InRange 0 600000) by (apply window_in_range; lia).
  split; [exact Hr|]. split; [apply windowOrbit_visible|].
  destruct (calculatePasses_duration_filter (sgp4 := tableJs)
              (mkSat 7 400 (windowOrbit 100000 90000)) site 0 600000 100000)
    as (_ & _ & _ & _ & _ & H).
  apply H; [exact Hr|apply windowOrbit_visible|lia|lia].
Defined.

(** Past the range of dates. A satellite that is always above the
    threshold gives no pass when the window begins at the last valid date,
    the end of the window being an Invalid Date; none when the window ends
    there half a minute after it began, the instant after the only sample
    being an Invalid Date at which the open pass is dropped; and one pass
    when the window ends there a whole minute after it began. *)
Example window_past_last_date :
  length (calculatePasses (sgp4 := tableJs)
            (mkSat 7 400 (fun _ => at_ 180 20 1000)) site
            8640000000000000 120000) = 0%nat /\
  length (calculatePasses (sgp4 := tableJs)
            (mkSat 7 400 (fun _ => at_ 180 20 1000)) site
            (8640000000000000 - 30000) 30000) = 0%nat /\
  length (calculatePasses (sgp4 := tableJs)
            (mkSat 7 400 (fun _ => at_ 180 20 1000)) site
            (8640000000000000 - 60000) 60000) = 1%nat.
Proof. repeat split; vm_compute; reflexivity. Qed.

Lemma single_pass {S : Type} (l : list (Pass S)) v :
  summary <$> l = [v] -> exists p, l = [p] /\ summary p = v.
Proof.
  destruct l as [|p [|q l]]; intros E; try discriminate E.
  exists p. split; [reflexivity|]. by injection E.
Qed.

(** A pass that rises after the search began and sets well before it
    ends, with its first sample the highest one. *)
Lemma first_sample_is_culmination :
  exists p,
    calculatePasses (sgp4 := tableJs)
      (mkSat 7 400 (sampledOrbit [0; 30; 20]%Q)) site 0 600000 = [p] /\
    0 < startTime p /\
    endTime p = Some 180000 /\ 180000 < 0 + 600000 /\
    is_Some (endAzimuth p) /\
    ~ (startTime p < maxElevationTime p).
Proof.
  destruct (single_pass
              (calculatePasses (sgp4 := tableJs)
                 (mkSat 7 400 (sampledOrbit [0; 30; 20]%Q)) site 0 600000)
              (60000, 60000, Some 180000, Some 3%Q, Some "N", Some "N"))
    as (p & -> & E); [vm_compute; reflexivity|].
  exists p. injection E as E1 E2 E3 E4 _ _. rewrite E1, E2, E3.
  repeat split; try lia.
  destruct (endAzimuth p); [by eexists|discriminate E4].
Qed.

(** C9 on a satellite still above the threshold when the three-minute
    window ends: the only pass returned was closed at the horizon and has
    neither an end azimuth nor an end direction, although its start and
    culmination fields are set. *)
Theorem horizon_pass_lacks_end_fields :
  exists p,
    calculatePasses (sgp4 := tableJs)
      (mkSat 7 400 (sampledOrbit [20; 30; 25]%Q)) site 0 180000 = [p] /\
    endTime p = Some 180000 /\
    startDirection p = Some "N" /\
    maxElevationTime p = 60000 /\
    endAzimuth p = None /\ endDirection p = None.
Proof.
  destruct (single_pass
              (calculatePasses (sgp4 := tableJs)
                 (mkSat 7 400 (sampledOrbit [20; 30; 25]%Q)) site 0 180000)
              (0, 60000, Some 180000, None, Some "N", None))
    as (p & -> & E); [vm_compute; reflexivity|].
  exists p. injection E as E1 E2 E3 E4 E5 E6.
  repeat split; auto. by destruct (endAzimuth p).
Qed.

(** The same satellite seen setting one minute earlier: the pass closed
    by a sample has both end fields. *)
Example sample_closed_pass_has_end_fields :
  summary <$>
    calculatePasses (sgp4 := tableJs)
      (mkSat 7 400 (sampledOrbit [20; 30]%Q)) site 0 180000
  = [(0, 60000, Some 120000, Some 2%Q, Some "N", Some "N")].
Proof. vm_compute. reflexivity. Qed.

End PassInstances.

Section FurtherCollisionInstances.
Import SatelliteService CollisionService Fixtures.

Lemma reducedSqrt_proper : Proper (Qeq ==> Qeq) (@Math_sqrt reducedSqrt).
Proof. intros q q' H. simpl. by rewrite (Qred_complete _ _ H). Defined.

Lemma calculateDistance_symmetric_witness :
  Proper (Qeq ==> Qeq) (@Math_sqrt reducedSqrt) /\
  match calculateDistance (math := reducedSqrt) (sgp4 := tableJs) satA satB 0,
        calculateDistance (math := reducedSqrt) (sgp4 := tableJs) satB satA 0 with
  | Some d, Some d' => (d == d')%Q
  | None, None => True
  | _, _ => False
  end.
Proof.
  split; [exact reducedSqrt_proper|].
  apply (calculateDistance_symmetric (math := reducedSqrt) (sgp4 := tableJs)
           reducedSqrt_proper satA satB 0).
Defined.

Lemma search_results_prefix_witness :
  0 <= 1 <= 50 /\
  findAllConjunctions (math := exactSqrt) (sgp4 := tableJs) [satA; satB] 0
    (Finite 25) 1 =
  take (Z.to_nat 1)
    (findAllConjunctions (math := exactSqrt) (sgp4 := tableJs) [satA; satB] 0
       (Finite 25) 50).
Proof.
  split; [lia|].
  destruct (search_results_prefix (math := exactSqrt) (sgp4 := tableJs)
              [satA; satB] satA 0 1 (Finite 25) 1 50) as [[H _] _]; [lia|exact H].
Defined.

Lemma findAllConjunctions_complete_witness :
  NoDup (noradId <$> [satA; satB]) /\
  exists c,
    c ∈ findAllConjunctions (math := exactSqrt) (sgp4 := tableJs)
          [satA; satB] 0 (Finite 25) 50 /\
    satellite1 c = satA /\ satellite2 c = satB.
Proof.
  split; [exact satA_satB_distinct|].
  destruct (calculateDistance (math := exactSqrt) (sgp4 := tableJs) satA satB 0)
    as [d|] eqn:Hd; [|vm_compute in Hd; discriminate Hd].
  assert (Hle : (d <= 25)%Q).
  { pose proof Hd as Hd'. vm_compute in Hd'. injection Hd' as <-.
    apply Qleb_true. vm_compute. reflexivity. }
  destruct (findAllConjunctions_complete (math := exactSqrt) (sgp4 := tableJs)
              [satA; satB] 0 (Finite 25) 50 0%nat 1%nat satA satB d)
    as (c & Hc & H1 & H2 & _);
    [exact satA_satB_distinct|simpl; lia|lia|reflexivity|reflexivity
    |apply Qleb_true; vm_compute; reflexivity|exact Hd|exact Hle|].
  exists c. auto.
Defined.


(** The forward scan agrees with the instantaneous one on the pair that
    never fails, and reports the late starter at its first measurable
    instant. *)
Example panel_counts_example :
  CollisionAlerts.stats
    (CollisionAlerts.calculateConjunctions (math := exactSqrt) (sgp4 := tableJs)
       "all" None
       [satA; satB; mkSat 103 410 (lateOrbit 0)] 0)
  = {| CollisionAlerts.critical := 0; CollisionAlerts.high := 1;
       CollisionAlerts.moderate := 0; CollisionAlerts.low := 1;
       CollisionAlerts.total := 3 |}.
Proof. vm_compute. reflexivity. Qed.

End FurtherCollisionInstances.

Section FurtherPassInstances.
Import PassService Fixtures.

Lemma formatDuration_whole_seconds_witness :
  (0 <= 251 # 2 <= inject_Z MAX_SAFE_INTEGER)%Q /\
  formatDuration (251 # 2) = "2m 5s".
Proof.
  assert (H : (0 <= 251 # 2 <= inject_Z MAX_SAFE_INTEGER)%Q)
    by (split; apply Qleb_true; vm_compute; reflexivity).
  split; [exact H|].
  destruct (formatDuration_whole_seconds (251 # 2) H) as (_ & _ & E).
  exact E.
Defined.

Lemma visible_now_starts_pass_witness :
  0 < 180000 /\ InRange 0 180000 /\ InRange 0 PREDICTION_WINDOW /\
  exists p more,
    calculatePasses (sgp4 := tableJs)
      (mkSat 7 400 (sampledOrbit [20; 30; 25]%Q)) site 0 180000 = p :: more /\
    startTime p = 0.
Proof.
  assert (Hr : InRange 0 180000) by (apply window_in_range; lia).
  assert (Hday : InRange 0 PREDICTION_WINDOW)
    by (apply window_in_range; unfold PREDICTION_WINDOW; lia).
  split; [lia|]. split; [exact Hr|]. split; [exact Hday|].
  destruct (isCurrentlyVisible (sgp4 := tableJs)
              (mkSat 7 400 (sampledOrbit [20; 30; 25]%Q)) site 0)
    as [v|] eqn:Hv; [|vm_compute in Hv; discriminate Hv].
  destruct (visible_now_starts_pass (sgp4 := tableJs)
              (mkSat 7 400 (sampledOrbit [20; 30; 25]%Q)) site 0 180000 v)
    as [(p & more & E & H & _) _]; [lia|exact Hr|exact Hday|exact Hv|].
  exists p, more. split; [exact E|exact H].
Defined.

Lemma getCardinalDirection_nearest_witness :
  (- (1000000000000000) <= 350 <= 1000000000000000)%Q /\
  (inject_Z 16 * (45 # 2) - (45 # 4) <= 350)%Q /\
  (350 < inject_Z 16 * (45 # 2) + (45 # 4))%Q /\
  getCardinalDirection 350 = Some "N".
Proof.
  assert (H0 : (- (1000000000000000) <= 350 <= 1000000000000000)%Q)
    by (split; apply Qleb_true; vm_compute; reflexivity).
  assert (H1 : (inject_Z 16 * (45 # 2) - (45 # 4) <= 350)%Q)
    by (apply Qleb_true; vm_compute; reflexivity).
  assert (H2 : (350 < inject_Z 16 * (45 # 2) + (45 # 4))%Q)
    by (apply Qltb_true; vm_compute; reflexivity).
  split; [exact H0|]. split; [exact H1|]. split; [exact H2|].
  destruct (getCardinalDirection_nearest 350 16 H0 H1 H2) as [H _].
  apply H. lia.
Defined.

Lemma approachTimes_grid_witness :
  - MAX_TIME <= 0 <= MAX_TIME /\
  300000 ∈ CollisionService.approachTimes 0 (inject_Z 1).
Proof.
  assert (H0 : - MAX_TIME <= 0 <= MAX_TIME) by (unfold MAX_TIME; lia).
  split; [exact H0|].
  destruct (approachTimes_grid 0 1 300000 H0) as [H _].
  apply H; [unfold MAX_TIME; lia|]. exists 1. lia.
Defined.

(** Two satellites on one observer's schedule, merged by start time. *)
Example upcoming_passes_example :
  (fun p => (noradId (satellite p), startTime p, endTime p)) <$>
    getUpcomingPasses (sgp4 := tableJs)
      [mkSat 7 400 (sampledOrbit [0; 0; 0; 20; 30]%Q);
       mkSat 8 400 (sampledOrbit [0; 20; 0; 0; 0; 0; 0; 25]%Q)]
      site (fun _ => 0) 20
  = [(8, 60000, Some 120000); (7, 180000, Some 300000);
     (8, 420000, Some 480000)].
Proof. vm_compute. reflexivity. Qed.

End FurtherPassInstances.
